(** * pyam_analysis.core: filter engine, criteria checker, category manager

    A shallow embedding of [src/pyam_analysis/core.py]: the functions
    [keep_col_match], [keep_col_yr], [IamDataFrame.select],
    [IamDataFrame.check], [IamDataFrame.category] and
    [IamDataFrame.validate], and the properties of them that the
    specification states.

    Conventions of the embedding.
    - A data frame is the list of its rows, in row order; a boolean mask is
      a [list bool] of the same length. Where the code builds a mask as a
      numpy array, the model keeps track of it: an array made from no flag
      is an array of floats, which the boolean operators of numpy refuse.
    - Strings are [string] (8-bit characters); the numeric payload of an
      observation is a rational ([Q]): the code only compares values
      ([<=], [>]), and on numbers that are not NaN (the loader drops NaN)
      these comparisons are the ones of the rationals.
    - Python exceptions are the [Raise] results of [result].
    - Python's [re] module is a library the code calls: the frame functions
      are written over an arbitrary [re_compile], and module [PyRe] gives
      the fragment of [re] that the pseudo-regex of [keep_col_match] can
      produce from plain text, for the statements that depend on how a
      pattern matches.
    - Filter dictionaries are objects the caller shares with the callee:
      they live in a heap and are passed by reference. *)

From Stdlib Require Import String Ascii List ZArith QArith Bool Lia.
Import ListNotations.

(** ** Exceptions and results *)

Inductive exn : Type :=
| SystemError (msg : string)
| TypeError
| AttributeError
| KeyError
| ReError.

Inductive result (A : Type) : Type :=
| Ok (a : A)
| Raise (e : exn).

Arguments Ok {A} a.
Arguments Raise {A} e.

Definition bind {A B : Type} (r : result A) (k : A -> result B) : result B :=
  match r with
  | Ok a => k a
  | Raise e => Raise e
  end.

Notation "x <- r ;; k" := (bind r (fun x => k))
  (at level 61, r at next level, right associativity).

(** ** Observations *)

Record obs : Type := Obs {
  model : string;
  scenario : string;
  region : string;
  variable : string;
  obs_unit : string;
  year : Z;
  value : Q
}.

(** The entity key of a row: its (model, scenario) pair. *)
Definition key : Type := (string * string)%type.

Definition key_of (o : obs) : key := (model o, scenario o).

Definition key_eqb (a b : key) : bool :=
  String.eqb (fst a) (fst b) && String.eqb (snd a) (snd b).

(** ** Python values that a filter or a check can hold *)

Inductive elem : Type :=
| EInt (n : Z)
| EStr (s : string).

Inductive pyval : Type :=
| PInt (n : Z)
| PStr (s : string)
| PList (l : list elem)
| PTuple (l : list elem)
| PRange (start stop step : Z)
| PNone.

(** [range(start, stop, step)]: its length and its items, as Python
    computes them (a [range] object never has step 0). *)
Definition range_len (start stop step : Z) : Z :=
  if ((0 <? step) && (start <? stop))%Z then ((stop - start - 1) / step + 1)%Z
  else if ((step <? 0) && (stop <? start))%Z
       then ((start - stop - 1) / (- step) + 1)%Z
       else 0%Z.

Definition range_items (start stop step : Z) : list Z :=
  map (fun i => (start + Z.of_nat i * step)%Z)
      (seq 0 (Z.to_nat (range_len start stop step))).

(** A [dict] with string keys, in insertion order. *)
Definition dict (V : Type) : Type := list (string * V).

Fixpoint dict_get {V : Type} (d : dict V) (k : string) : option V :=
  match d with
  | [] => None
  | (k', v) :: d' => if String.eqb k' k then Some v else dict_get d' k
  end.

(** [d[k] = v]: the value is replaced where the key is, or the entry is
    added at the end. *)
Fixpoint dict_set {V : Type} (d : dict V) (k : string) (v : V) : dict V :=
  match d with
  | [] => [(k, v)]
  | (k', v') :: d' =>
      if String.eqb k' k then (k', v) :: d' else (k', v') :: dict_set d' k v
  end.

(** ** Masks and frames *)

Definition truthy {A : Type} (l : option (list A)) : list A :=
  match l with
  | Some l => l
  | None => []
  end.

Definition is_empty {A : Type} (l : list A) : bool :=
  match l with
  | [] => true
  | _ :: _ => false
  end.

(** [np.array([True] * n)] is an array of booleans, but for [n = 0]
    numpy makes it an array of floats, which [&] and [~] refuse. A mask is
    such an array until it meets a Series ([array & Series] and
    [array | Series] are Series): the flags are kept as a [list bool], and
    where it matters a boolean beside them says whether they still are a
    numpy array. An array without flags is the array of floats. *)

Definition mask_and (a b : list bool) : list bool :=
  map (fun p => fst p && snd p) (combine a b).

Definition mask_or (a b : list bool) : list bool :=
  map (fun p => fst p || snd p) (combine a b).

(** [df[mask]]: the rows whose flag is true. *)
Definition mask_select {A : Type} (mask : list bool) (rows : list A) : list A :=
  map snd (filter fst (combine mask rows)).

(** [Series.isin(values)]. *)
Definition isin {A : Type} (eqb : A -> A -> bool) (col vals : list A)
  : list bool :=
  map (fun x => existsb (eqb x) vals) col.

(** [drop_duplicates()]: the first occurrence of each row is kept. *)
Fixpoint drop_dups_from {A : Type} (eqb : A -> A -> bool) (seen : list A)
    (l : list A) : list A :=
  match l with
  | [] => []
  | x :: l' =>
      if existsb (eqb x) seen then drop_dups_from eqb seen l'
      else x :: drop_dups_from eqb (x :: seen) l'
  end.

Definition drop_duplicates {A : Type} (eqb : A -> A -> bool) (l : list A)
  : list A :=
  drop_dups_from eqb [] l.

(** ** The pseudo-regex of [keep_col_match] *)

(** [s.replace(c, by)] for a one-character [c]. *)
Fixpoint str_replace (c : ascii) (by_ : string) (s : string) : string :=
  match s with
  | EmptyString => EmptyString
  | String a s' =>
      if Ascii.eqb a c then (by_ ++ str_replace c by_ s')%string
      else String a (str_replace c by_ s')
  end.

(** [s.replace('|', '\\|').replace('*', '.*') + "$"] *)
Definition pseudo_regex_of (s : string) : string :=
  (str_replace "*" ".*" (str_replace "|" "\|" s) ++ "$")%string.

(** ** keep_col_match, keep_col_yr and select *)

Section Frames.

(** [re.compile]: an error, or the compiled pattern, whose [match] method
    says whether the pattern matches at the start of a string. *)
Variable re_compile : string -> result (string -> bool).

(** What [for s in strings] iterates over. *)
Definition iter_strings (strings : pyval) : result (list elem) :=
  match strings with
  | PStr s => Ok [EStr s]
  | PList l => Ok l
  | PTuple l => Ok l
  | PRange a b c => Ok (map EInt (range_items a b c))
  | PInt _ => Raise TypeError
  | PNone => Raise TypeError
  end.

(** The loop of [keep_col_match]. An item that is not a string has no
    [replace] method, and [re.compile] refuses it. *)
Fixpoint match_loop (col : list string) (pseudo_regex : bool)
    (strings : list elem) (keep_col : list bool) : result (list bool) :=
  match strings with
  | [] => Ok keep_col
  | EInt _ :: _ => Raise (if pseudo_regex then AttributeError else TypeError)
  | EStr s :: rest =>
      let s := if pseudo_regex then pseudo_regex_of s else s in
      pattern <- re_compile s ;;
      let subset := filter pattern col in
      match_loop col pseudo_regex rest
                 (mask_or keep_col (isin String.eqb col subset))
  end.

Definition keep_col_match (col : list string) (strings : pyval)
    (pseudo_regex : bool) : result (list bool) :=
  let keep_col := map (fun _ => false) col in
  strings <- iter_strings strings ;;
  match_loop col pseudo_regex strings keep_col.

Definition elem_is_year (y : Z) (e : elem) : bool :=
  match e with
  | EInt n => (y =? n)%Z
  | EStr _ => false
  end.

Definition keep_col_yr (col : list Z) (yrs : pyval) : result (list bool) :=
  match yrs with
  | PInt n => Ok (map (fun y => (y =? n)%Z) col)
  | PList l => Ok (map (fun y => existsb (elem_is_year y) l) col)
  | PRange a b c => Ok (isin Z.eqb col (range_items a b c))
  | PStr s =>
      Raise (SystemError ("filtering for years by " ++ s
                          ++ " not supported,must be int, list or range"))
  | PTuple _ => Raise TypeError
  | PNone => Raise TypeError
  end.

(** [self.data[col]] for the three name columns. *)
Definition name_column (col : string) (data : list obs) : list string :=
  if String.eqb col "model" then map model data
  else if String.eqb col "scenario" then map scenario data
  else map region data.

Definition is_name_column (col : string) : bool :=
  String.eqb col "model" || String.eqb col "scenario"
  || String.eqb col "region".

(** The mask of one entry of the filter dictionary. *)
Definition keep_entry (data : list obs) (col : string) (values : pyval)
  : result (list bool) :=
  if is_name_column col then keep_col_match (name_column col data) values false
  else if String.eqb col "variable"
       then keep_col_match (map variable data) values true
  else if String.eqb col "year" then keep_col_yr (map year data) values
  else Raise (SystemError ("filter by column " ++ col ++ " not supported")).

(** The mask of the entry is the array [keep_col_match] starts from:
    its loop ran over no string. ([keep_col_yr] returns a Series, and so
    does [keep_col_match] once the loop has run.) *)
Definition entry_is_array (col : string) (values : pyval) : bool :=
  (is_name_column col || String.eqb col "variable")
  && match iter_strings values with
     | Ok [] => true
     | _ => false
     end.

(** The loop of [select] over [filters.items()]: the flags of [keep], and
    whether [keep] still is a numpy array. [keep & keep_col] on two arrays
    of floats (no row, and neither is a Series) is a TypeError. *)
Fixpoint select_loop (data : list obs) (items : dict pyval)
    (keep : list bool) (array : bool) : result (list bool * bool) :=
  match items with
  | [] => Ok (keep, array)
  | (col, values) :: rest =>
      keep_col <- keep_entry data col values ;;
      let col_array := entry_is_array col values in
      if array && col_array && is_empty keep then Raise TypeError
      else select_loop data rest (mask_and keep keep_col)
                       (array && col_array)
  end.

Definition select_mask (data : list obs) (filters : dict pyval)
  : result (list bool) :=
  keep <- select_loop data filters (map (fun _ => true) data) true ;;
  Ok (fst keep).

(** [self.select(filters)], with [cols] and [idx_cols] left out: the
    kept rows, renumbered. This is the call [check] makes, with filters
    that have an entry; the frame then has every column. *)
Definition select_rows (data : list obs) (filters : dict pyval)
  : result (list obs) :=
  keep <- select_mask data filters ;;
  Ok (mask_select keep data).

(** *** Projection: the [cols] and [idx_cols] arguments of [select] *)

Inductive column : Type :=
| CModel | CScenario | CRegion | CVariable | CUnit | CYear | CValue.

Inductive cell : Type :=
| SCell (s : string)
| ZCell (n : Z)
| QCell (q : Q).

Definition column_eqb (a b : column) : bool :=
  match a, b with
  | CModel, CModel | CScenario, CScenario | CRegion, CRegion
  | CVariable, CVariable | CUnit, CUnit | CYear, CYear
  | CValue, CValue => true
  | _, _ => false
  end.

Definition cell_eqb (a b : cell) : bool :=
  match a, b with
  | SCell s, SCell t => String.eqb s t
  | ZCell n, ZCell m => (n =? m)%Z
  | QCell p, QCell q => Qeq_bool p q
  | _, _ => false
  end.

Fixpoint cells_eqb (a b : list cell) : bool :=
  match a, b with
  | [], [] => true
  | x :: a', y :: b' => cell_eqb x y && cells_eqb a' b'
  | _, _ => false
  end.

Definition cell_of (o : obs) (c : column) : cell :=
  match c with
  | CModel => SCell (model o)
  | CScenario => SCell (scenario o)
  | CRegion => SCell (region o)
  | CVariable => SCell (variable o)
  | CUnit => SCell (obs_unit o)
  | CYear => ZCell (year o)
  | CValue => QCell (value o)
  end.

Definition project (cs : list column) (o : obs) : list cell :=
  map (cell_of o) cs.

(** The columns of [self.data], in the order the loader leaves them. *)
Definition data_columns : list column :=
  [CModel; CScenario; CRegion; CVariable; CUnit; CYear; CValue].

(** A frame: the columns of its index (none for a plain row numbering),
    its data columns, and per row the cells of both. *)
Record frame : Type := Frame {
  frame_index : list column;
  frame_columns : list column;
  frame_rows : list (list cell * list cell)
}.

Definition select (data : list obs) (filters : dict pyval)
    (cols idx_cols : option (list column)) : result frame :=
  keep <- select_loop data filters (map (fun _ => true) data) true ;;
  let df := mask_select (fst keep) data in
  let cols := truthy cols in
  let idx_cols := truthy idx_cols in
  if snd keep && is_empty (fst keep) then
    (* [self.data[keep]] with an array of floats selects columns, none:
       the frame has no column, and no column can be asked of it *)
    if is_empty cols && is_empty idx_cols then Ok (Frame [] [] [])
    else Raise KeyError
  else
    let shown :=
      if is_empty cols then data_columns else (cols ++ idx_cols)%list in
    let df :=
      if is_empty cols then df
      else drop_duplicates
             (fun a b => cells_eqb (project shown a) (project shown b)) df in
    let rest :=
      filter (fun c => negb (existsb (column_eqb c) idx_cols)) shown in
    Ok (Frame idx_cols rest
              (map (fun o => (project idx_cols o, project rest o)) df)).

End Frames.

(** ** Filter dictionaries as shared objects *)

(** A filter dictionary is reached through a reference: the caller of
    [check], [category] or [validate] keeps the reference it passes. *)
Definition ref : Type := nat.

Definition heap : Type := list (dict pyval).

Definition heap_get (h : heap) (r : ref) : dict pyval := nth r h [].

Fixpoint heap_set (h : heap) (r : ref) (d : dict pyval) : heap :=
  match h, r with
  | [], _ => []
  | _ :: h', O => d :: h'
  | x :: h', S r' => x :: heap_set h' r' d
  end.

(** A new, empty dictionary ([{}]). *)
Definition heap_new (h : heap) : ref * heap := (length h, (h ++ [[]])%list).

(** [filters[k] = v] on the object behind [r]. *)
Definition store (h : heap) (r : ref) (k : string) (v : pyval) : heap :=
  heap_set h r (dict_set (heap_get h r) k v).

(** ** check *)

(** The [check] dictionary of a criterion: the keys the code reads. *)
Record check_spec : Type := CheckSpec {
  chk_up : option Q;
  chk_lo : option Q;
  chk_year : option pyval
}.

(** [value > val] *)
Definition Qgt_bool (x y : Q) : bool :=
  match (x ?= y)%Q with
  | Gt => true
  | _ => false
  end.

(** The flags of [check]: true, and-ed with every bound the check has. *)
Definition is_true (chk : check_spec) (df : list obs) : list bool :=
  let is_true := map (fun _ => true) df in
  let is_true :=
    match chk_up chk with
    | Some val => mask_and is_true (map (fun o => Qle_bool (value o) val) df)
    | None => is_true
    end in
  match chk_lo chk with
  | Some val => mask_and is_true (map (fun o => Qgt_bool (value o) val) df)
  | None => is_true
  end.

(** The three frames [check] can return. *)
Inductive check_result : Type :=
| ByYear (rows : list (key * Z))
    (* index (model, scenario), column year: one year was asked for *)
| AllYears (index : list key)
    (* index (model, scenario), no column *)
| Failing (rows : list obs).
    (* the rows that fail, every column *)

Definition key_year_eqb (a b : key * Z) : bool :=
  key_eqb (fst a) (fst b) && (snd a =? snd b)%Z.

(** [df.loc[is_true, ['model', 'scenario', 'year']]] *)
Definition satisfying (chk : check_spec) (df : list obs) : list (key * Z) :=
  map (fun o => (key_of o, year o)) (mask_select (is_true chk df) df).

(** The order of the group keys: by model, then by scenario. *)
Definition key_leb (a b : key) : bool :=
  match String.compare (fst a) (fst b) with
  | Lt => true
  | Eq => String.leb (snd a) (snd b)
  | Gt => false
  end.

Fixpoint insert_key (k : key) (l : list key) : list key :=
  match l with
  | [] => [k]
  | x :: l' => if key_leb k x then k :: l else x :: insert_key k l'
  end.

Definition sort_keys (l : list key) : list key := fold_right insert_key [] l.

(** [.groupby(['model', 'scenario']).count()]: per key, the number of
    rows, the keys sorted. *)
Definition groupby_count (rows : list (key * Z)) : list (key * nat) :=
  map (fun k => (k, length (filter (fun r => key_eqb (fst r) k) rows)))
      (sort_keys (drop_duplicates key_eqb (map fst rows))).

(** The check has neither [up] nor [lo]: [is_true] stays the array it was
    made as. *)
Definition no_bounds (chk : check_spec) : bool :=
  match chk_up chk, chk_lo chk with
  | None, None => true
  | _, _ => false
  end.

(** What [check] does with the selected frame [df]. With no row and no
    bound [is_true] is an array of floats, and [~is_true] is a
    TypeError. *)
Definition check_frame (chk : check_spec) (ret_true : bool) (df : list obs)
  : result check_result :=
  if ret_true then
    match chk_year chk with
    | Some (PInt _) =>
        Ok (ByYear (drop_duplicates key_year_eqb (satisfying chk df)))
    | _ =>
        let num_yr := length (drop_duplicates Z.eqb (map year df)) in
        let df_agg := groupby_count (satisfying chk df) in
        Ok (AllYears
              (map fst (filter (fun g => Nat.eqb (snd g) num_yr) df_agg)))
    end
  else if is_empty df && no_bounds chk then Raise TypeError
  else Ok (Failing (mask_select (map negb (is_true chk df)) df)).

Section Criteria.

Variable re_compile : string -> result (string -> bool).

(** The object [filters] names once the first three statements of
    [check] have run, and the heap they leave. *)
Definition check_filters (variable : string) (chk : check_spec)
    (filters : option ref) (h : heap) : ref * heap :=
  let (filters, h) :=
    match filters with
    | Some r => if is_empty (heap_get h r) then heap_new h else (r, h)
    | None => heap_new h
    end in
  let h :=
    match chk_year chk with
    | Some yrs => store h filters "year" yrs
    | None => h
    end in
  (filters, store h filters "variable" (PStr variable)).

Definition check (data : list obs) (variable : string) (chk : check_spec)
    (filters : option ref) (ret_true : bool) (h : heap)
  : result check_result * heap :=
  let (filters, h) := check_filters variable chk filters h in
  (df <- select_rows re_compile data (heap_get h filters) ;;
   check_frame chk ret_true df, h).

(** ** category *)

(** [self.cat]: a row per entity key, with its label, if it has one. *)
Definition table : Type := list (key * option string).

(** [__init__]: every entity key of the data, without a label. *)
Definition init_cat (data : list obs) : table :=
  map (fun k => (k, None)) (drop_duplicates key_eqb (map key_of data)).

Record world : Type := World {
  filter_objects : heap;
  cat : table;
  stdout : list string
}.

Definition print (line : string) (w : world) : world :=
  World (filter_objects w) (cat w) (stdout w ++ [line]).

(** The [display] argument: ['list'], ['pivot'], a false value, or
    anything else that is true (the default, the builtin [list], is). *)
Inductive display_style : Type :=
| DisplayList | DisplayPivot | DisplayOff | DisplayOther.

(** What [category] returns. *)
Inductive view : Type :=
| NoView
| ListView (index : list key)
| PivotView (index : list key).

Definition show (display : display_style) (index : list key) : view :=
  match display with
  | DisplayList => ListView index
  | DisplayPivot => PivotView index
  | _ => NoView
  end.

(** The index of a frame that [check] returned in satisfying mode. *)
Definition result_index (r : check_result) : list key :=
  match r with
  | ByYear rows => map fst rows
  | AllYears index => index
  | Failing _ => []   (* not reached: [category] passes [ret_true] *)
  end.

Definition intersection (a b : list key) : list key :=
  filter (fun k => existsb (key_eqb k) b) a.

(** The loop of [category] over [criteria.items()]. *)
Fixpoint category_loop (data : list obs) (items : dict check_spec)
    (filters : option ref) (cat : list key) (h : heap)
  : result (list key) * heap :=
  match items with
  | [] => (Ok cat, h)
  | (var, chk) :: rest =>
      match check data var chk filters true h with
      | (Ok r, h') =>
          category_loop data rest filters (intersection cat (result_index r)) h'
      | (Raise e, h') => (Raise e, h')
      end
  end.

(** [self.cat.loc[cat, 'category'] = name] *)
Definition assign_category (t : table) (cat : list key) (name : string)
  : table :=
  map (fun row => if existsb (key_eqb (fst row)) cat
                  then (fst row, Some name) else row) t.

Definition label_is (name : string) (row : key * option string) : bool :=
  match snd row with
  | Some l => String.eqb l name
  | None => false
  end.

Definition no_scenario : string := "No scenario satisfies the criteria".

Definition categorized_as (name : string) : string :=
  "The following scenarios are categorized as '" ++ name ++ "':".

Definition category (data : list obs) (name : string)
    (criteria : option (dict check_spec)) (filters : option ref)
    (assign : bool) (display : display_style) (w : world)
  : result view * world :=
  if negb (String.eqb name "") && is_empty (truthy criteria) then
    (Ok (show display (map fst (filter (label_is name) (cat w)))), w)
  else
    match criteria with
    | None => (Raise AttributeError, w)
    | Some criteria =>
        match category_loop data criteria filters (map fst (cat w))
                            (filter_objects w) with
        | (Raise e, h) => (Raise e, World h (cat w) (stdout w))
        | (Ok index, h) =>
            if is_empty index then
              (Ok NoView, print no_scenario (World h (cat w) (stdout w)))
            else
              let t := if assign then assign_category (cat w) index name
                       else cat w in
              let w := World h t (stdout w) in
              match display with
              | DisplayOff => (Ok NoView, w)
              | _ => (Ok (show display index), print (categorized_as name) w)
              end
        end
    end.

(** ** validate *)

(** The loop of [validate]: the failing rows of every criterion, appended. *)
Fixpoint validate_loop (data : list obs) (items : dict check_spec)
    (filters : ref) (df : list obs) (h : heap) : result (list obs) * heap :=
  match items with
  | [] => (Ok df, h)
  | (var, chk) :: rest =>
      match check data var chk (Some filters) false h with
      | (Ok (Failing rows), h') =>
          validate_loop data rest filters (df ++ rows) h'
      | (Ok _, h') => (Ok df, h')   (* not reached: [ret_true] is false *)
      | (Raise e, h') => (Raise e, h')
      end
  end.

(** [validate] returns the report (its rows; the styling is left out) or
    nothing. [filters] is always an object: when the caller gives none, it
    is the dictionary made once, where the function is defined. *)
Definition validate (data : list obs) (criteria : dict check_spec)
    (filters : ref) (exclude : bool) (w : world)
  : result (option (list obs)) * world :=
  match validate_loop data criteria filters [] (filter_objects w) with
  | (Raise e, h) => (Raise e, World h (cat w) (stdout w))
  | (Ok df, h) =>
      let w := World h (cat w) (stdout w) in
      if is_empty df then
        (Ok None, print "All models and scenarios satisfy the criteria" w)
      else if exclude then
        (Raise (SystemError "excluding model/scenarios not yet supported!"), w)
      else
        (Ok (Some df),
         print "These model/scenarios do not satisfy the criteria:" w)
  end.

End Criteria.

(** ** The fragment of Python's [re] behind the pseudo-regex

    Patterns made of literal characters, [\c] for a punctuation character
    [c], [.], a [*] after a character or a dot, and [$]. On these,
    [re.compile(p).match(s)] is as below: [.] is any character but a line
    feed, [$] holds at the end of the string and before a line feed that
    ends it, and the match starts at the first character and may stop
    anywhere. Every other construct of [re] is outside the fragment, and
    [compile] answers [Raise ReError] for it (Python raises [re.error] for
    some of them and compiles the others). *)
Module PyRe.

Inductive token : Type :=
| TLit (c : ascii)
| TAny
| TEnd
| TStar.

Definition is_alnum (c : ascii) : bool :=
  let n := nat_of_ascii c in
  ((48 <=? n) && (n <=? 57) || (65 <=? n) && (n <=? 90)
   || (97 <=? n) && (n <=? 122))%nat.

(** The characters [re] gives a meaning to. *)
Definition specials : list ascii :=
  ["."; "^"; "$"; "*"; "+"; "?"; "{"; "}"; "["; "]"; "\"; "|"; "("; ")"]%char.

Definition is_special (c : ascii) : bool := existsb (Ascii.eqb c) specials.

Fixpoint tokens (p : string) : option (list token) :=
  match p with
  | EmptyString => Some []
  | String c p' =>
      if Ascii.eqb c "\" then
        match p' with
        | EmptyString => None
        | String d p'' =>
            if is_alnum d then None
            else option_map (cons (TLit d)) (tokens p'')
        end
      else if Ascii.eqb c "." then option_map (cons TAny) (tokens p')
      else if Ascii.eqb c "$" then option_map (cons TEnd) (tokens p')
      else if Ascii.eqb c "*" then option_map (cons TStar) (tokens p')
      else if is_special c then None
      else option_map (cons (TLit c)) (tokens p')
  end.

Inductive atom : Type :=
| Lit (c : ascii)
| Any.

Inductive item : Type :=
| One (a : atom)
| Many (a : atom)
| End_.

(** A star belongs to the character or dot before it; alone, or after
    [$] or another star, there is nothing it can repeat. *)
Fixpoint items (ts : list token) : option (list item) :=
  match ts with
  | [] => Some []
  | TStar :: _ => None
  | TEnd :: ts' => option_map (cons End_) (items ts')
  | TLit c :: TStar :: ts' => option_map (cons (Many (Lit c))) (items ts')
  | TLit c :: ts' => option_map (cons (One (Lit c))) (items ts')
  | TAny :: TStar :: ts' => option_map (cons (Many Any)) (items ts')
  | TAny :: ts' => option_map (cons (One Any)) (items ts')
  end.

Definition line_feed : ascii := "010"%char.

Definition atom_ok (a : atom) (c : ascii) : bool :=
  match a with
  | Lit d => Ascii.eqb c d
  | Any => negb (Ascii.eqb c line_feed)
  end.

Definition at_end (s : string) : bool :=
  match s with
  | EmptyString => true
  | String c EmptyString => Ascii.eqb c line_feed
  | _ => false
  end.

(** [matches r s]: some prefix of [s] is matched by [r]. *)
Fixpoint matches (r : list item) (s : string) : bool :=
  match r with
  | [] => true
  | End_ :: r' => at_end s && matches r' s
  | One a :: r' =>
      match s with
      | EmptyString => false
      | String c s' => atom_ok a c && matches r' s'
      end
  | Many a :: r' =>
      (fix many (s : string) : bool :=
         matches r' s
         || match s with
            | EmptyString => false
            | String c s' => atom_ok a c && many s'
            end) s
  end.

Definition compile (p : string) : result (string -> bool) :=
  match tokens p with
  | None => Raise ReError
  | Some ts =>
      match items ts with
      | None => Raise ReError
      | Some r => Ok (matches r)
      end
  end.

(** [re.compile(p).match(s)] is not [None]. *)
Definition re_match (p s : string) : result bool :=
  pattern <- compile p ;; Ok (pattern s).

End PyRe.

(** ** Vocabulary of the statements *)

(** The axis names [select] knows. *)
Definition recognised (col : string) : bool :=
  is_name_column col || String.eqb col "variable" || String.eqb col "year".

(** A collection with nothing in it. *)
Definition is_empty_collection (v : pyval) : bool :=
  match v with
  | PList l => is_empty l
  | PTuple l => is_empty l
  | PRange a b c => is_empty (range_items a b c)
  | _ => false
  end.

(** [r] is a mask over [col] that keeps exactly the entries with [P]. *)
Definition selects {A : Type} (r : result (list bool)) (col : list A)
    (P : A -> Prop) : Prop :=
  exists mask, r = Ok mask /\ length mask = length col
    /\ forall i x, nth_error col i = Some x ->
         exists b, nth_error mask i = Some b /\ (b = true <-> P x).

(** The flag of one row: the conjunction of the bounds of the check. *)
Definition row_flag (chk : check_spec) (o : obs) : bool :=
  match chk_up chk with
  | Some val => Qle_bool (value o) val
  | None => true
  end
  && match chk_lo chk with
     | Some val => Qgt_bool (value o) val
     | None => true
     end.

Fixpoint string_forallb (f : ascii -> bool) (s : string) : bool :=
  match s with
  | EmptyString => true
  | String c s' => f c && string_forallb f s'
  end.

(** A filter string without the wildcard. *)
Definition no_star (s : string) : bool :=
  string_forallb (fun c => negb (Ascii.eqb c "*")) s.

(** Plain text: no character that [re] gives a meaning to, but for the
    bar, which [keep_col_match] escapes. *)
Definition plain_char (c : ascii) : bool :=
  Ascii.eqb c "|" || negb (PyRe.is_special c).

Definition plain (s : string) : bool := string_forallb plain_char s.

Fixpoint ends_with_line_feed (s : string) : bool :=
  match s with
  | EmptyString => false
  | String c EmptyString => Ascii.eqb c PyRe.line_feed
  | String _ s' => ends_with_line_feed s'
  end.

(** The items of a pattern that is the text [s]. *)
Fixpoint literal_items (s : string) : list PyRe.item :=
  match s with
  | EmptyString => []
  | String c s' => PyRe.One (PyRe.Lit c) :: literal_items s'
  end.

Fixpoint literal_tokens (s : string) : list PyRe.token :=
  match s with
  | EmptyString => []
  | String c s' => PyRe.TLit c :: literal_tokens s'
  end.

(** The dictionary [check] builds when it starts from an empty one. *)
Definition check_dict (variable : string) (chk : check_spec) : dict pyval :=
  dict_set
    match chk_year chk with
    | Some yrs => dict_set [] "year" yrs
    | None => []
    end
    "variable" (PStr variable).

(** The indexes of the frames that the checks of [category] return, one
    per criterion, in the order of the loop. *)
Fixpoint check_indexes (re_compile : string -> result (string -> bool))
    (data : list obs) (items : dict check_spec) (filters : option ref)
    (h : heap) : result (list (list key)) :=
  match items with
  | [] => Ok []
  | (var, chk) :: rest =>
      match check re_compile data var chk filters true h with
      | (Ok r, h') =>
          sets <- check_indexes re_compile data rest filters h' ;;
          Ok (result_index r :: sets)
      | (Raise e, _) => Raise e
      end
  end.

(** [k] is in every one of the sets. *)
Definition in_all (sets : list (list key)) (k : key) : bool :=
  forallb (fun s => existsb (key_eqb k) s) sets.

(** The years in which a key has a satisfying row, and the years of the
    selection, each year once. *)
Definition years_satisfied (chk : check_spec) (df : list obs) (k : key)
  : list Z :=
  drop_duplicates Z.eqb
    (map snd (filter (fun r => key_eqb (fst r) k) (satisfying chk df))).

Definition years_queried (df : list obs) : list Z :=
  drop_duplicates Z.eqb (map year df).

(** *** Sample data *)

Definition row (m s r v : string) (y : Z) (x : Z) : obs :=
  Obs m s r v "Mt/yr" y (inject_Z x).

(** One entity, two regions; the bound 10 holds in 2010, 2020 and 2030 and
    fails in 2040. *)
Definition three_of_four : list obs :=
  [ row "m1" "s1" "World" "V" 2010 5;
    row "m1" "s1" "Europe" "V" 2010 5;
    row "m1" "s1" "World" "V" 2020 5;
    row "m1" "s1" "World" "V" 2030 5;
    row "m1" "s1" "World" "V" 2040 15 ].

(** One entity, two regions; the bound 10 holds in each of the four
    years. *)
Definition four_of_four : list obs :=
  [ row "m1" "s1" "World" "V" 2010 5;
    row "m1" "s1" "Europe" "V" 2010 5;
    row "m1" "s1" "World" "V" 2020 5;
    row "m1" "s1" "World" "V" 2030 5;
    row "m1" "s1" "World" "V" 2040 5 ].

Definition up_to_10 : check_spec :=
  CheckSpec (Some (inject_Z 10)) None None.

Definition up_to_10_in_2010 : check_spec :=
  CheckSpec (Some (inject_Z 10)) None (Some (PInt 2010)).

(** The example of the specification: 5 in 2010 and 15 in 2020. *)
Definition two_years : list obs :=
  [ row "m1" "s1" "r1" "V" 2010 5;
    row "m1" "s1" "r1" "V" 2020 15 ].

(** A filter dictionary that a caller holds. *)
Definition world_only : dict pyval := [("region"%string, PStr "World")].

(** V is 5 in 2010 and 15 in 2020, W is 5 in 2010, all in one region. *)
Definition two_variables : list obs :=
  [ row "m1" "s1" "World" "V" 2010 5;
    row "m1" "s1" "World" "V" 2020 15;
    row "m1" "s1" "World" "W" 2010 5 ].

(** V in every year, W in 2010. *)
Definition v_then_w : dict check_spec :=
  [("V"%string, up_to_10); ("W"%string, up_to_10_in_2010)].

Definition m1s1 : key := ("m1"%string, "s1"%string).

(** The state after [__init__], with the dictionaries the caller holds. *)
Definition start (data : list obs) (h : heap) : world :=
  World h (init_cat data) [].

(** A mask that keeps no row. *)
Definition all_false (m : list bool) : Prop := forall b, In b m -> b = false.

(** Text in which [re] reads every character as itself. *)
Definition literal (s : string) : bool :=
  string_forallb (fun c => negb (PyRe.is_special c)) s.

Definition no_line_feed (s : string) : bool :=
  string_forallb (fun c => negb (Ascii.eqb c PyRe.line_feed)) s.

(** Row [i] is kept by the mask. *)
Definition kept (m : list bool) (i : nat) : Prop := nth_error m i = Some true.

(** The rows [validate] gathers when it starts from empty filters: for
    each criterion in turn, the rows of its selection that break a bound.
    A criterion without bounds whose selection has no row makes [check]
    raise, as [check_frame] has it. *)
Fixpoint failing (re_compile : string -> result (string -> bool))
    (data : list obs) (items : dict check_spec) : result (list obs) :=
  match items with
  | [] => Ok []
  | (var, chk) :: rest =>
      df <- select_rows re_compile data (check_dict var chk) ;;
      rows <- (if is_empty df && no_bounds chk then Raise TypeError
               else Ok (filter (fun o => negb (row_flag chk o)) df)) ;;
      more <- failing re_compile data rest ;;
      Ok (rows ++ more)%list
  end.

(** The keys that carry the label [name]. *)
Definition labelled (name : string) (t : table) : list key :=
  map fst (filter (label_is name) t).

(** ** models, scenarios, variables *)

Fixpoint position (c : column) (cs : list column) : option nat :=
  match cs with
  | [] => None
  | c' :: cs' =>
      if column_eqb c' c then Some O else option_map S (position c cs')
  end.

(** [df.<name>]: the cells of a data column of the frame. *)
Definition frame_column (f : frame) (c : column) : result (list cell) :=
  match position c (frame_columns f) with
  | Some i => Ok (map (fun r => nth i (snd r) (SCell "")) (frame_rows f))
  | None => Raise AttributeError
  end.

Section Listing.

Variable re_compile : string -> result (string -> bool).

Definition models (data : list obs) (filters : dict pyval)
  : result (list cell) :=
  df <- select re_compile data filters (Some [CModel]) None ;;
  frame_column df CModel.

Definition scenarios (data : list obs) (filters : dict pyval)
  : result (list cell) :=
  df <- select re_compile data filters (Some [CScenario]) None ;;
  frame_column df CScenario.

Definition variables (data : list obs) (filters : dict pyval)
  : result (list cell) :=
  df <- select re_compile data filters (Some [CVariable]) None ;;
  frame_column df CVariable.

End Listing.

(** ** highlight_not_max *)

(** [s.max()]: nothing for an empty series. *)
Definition series_max (s : list Q) : option Q :=
  match s with
  | [] => None
  | x :: rest =>
      Some (fold_left (fun m y => if Qle_bool m y then y else m) rest x)
  end.

Definition highlight_not_max (s : list Q) : list string :=
  match series_max s with
  | Some m =>
      map (fun v => if Qeq_bool v m then ""%string
                    else "background-color: yellow"%string) s
  | None => []
  end.

(** [r] lists, each once, the values of [g] on the rows that [select]
    keeps, or raises as [select] does. On a store without rows and with
    no filter the frame of [select] has no column, and [r] raises. *)
Definition lists_once (re_compile : string -> result (string -> bool))
    (data : list obs) (fs : dict pyval) (g : obs -> string)
    (r : result (list cell)) : Prop :=
  if is_empty data && is_empty fs then r = Raise KeyError
  else
    match select_rows re_compile data fs with
    | Raise e => r = Raise e
    | Ok rows =>
        exists l,
          r = Ok (map SCell l)
          /\ NoDup l
          /\ forall x, In x l <-> exists o, In o rows /\ g o = x
    end.

(** The first entry of the dictionary leaves its mask a numpy array. *)
Definition first_is_array (fs : dict pyval) : bool :=
  match fs with
  | (c, v) :: _ => entry_is_array c v
  | [] => false
  end.

(** * Properties *)

(** Small checks of the fragment against Python. *)
Example re_plain : PyRe.re_match "abc$" "abc" = Ok true.
Proof. reflexivity. Qed.

Example re_prefix_only : PyRe.re_match "abc" "abcd" = Ok true.
Proof. reflexivity. Qed.

Example re_end_anchor : PyRe.re_match "abc$" "abcd" = Ok false.
Proof. reflexivity. Qed.

Example re_wildcard :
  PyRe.re_match (pseudo_regex_of "Emissions*") "Emissions|CO2" = Ok true
  /\ PyRe.re_match (pseudo_regex_of "Emissions*") "Emissions" = Ok true
  /\ PyRe.re_match (pseudo_regex_of "Emissions|CO2") "Emissions|CO2" = Ok true
  /\ PyRe.re_match (pseudo_regex_of "Emissions|CO2") "Emissions" = Ok false.
Proof. repeat split; reflexivity. Qed.

Example re_nothing_to_repeat : PyRe.re_match "*a" "a" = Raise ReError.
Proof. reflexivity. Qed.

(** ** Masks *)

Lemma mask_and_true_l (m : list bool) (A : Type) (l : list A) :
  length m = length l -> mask_and (map (fun _ => true) l) m = m.
Proof.
  revert l; induction m as [|b m IH]; intros [|x l] Hlen; simpl in *;
    try discriminate; try reflexivity.
  unfold mask_and in *; simpl. f_equal. apply IH. lia.
Qed.

Lemma mask_or_false_l (m : list bool) (A : Type) (l : list A) :
  length m = length l -> mask_or (map (fun _ => false) l) m = m.
Proof.
  revert l; induction m as [|b m IH]; intros [|x l] Hlen; simpl in *;
    try discriminate; try reflexivity.
  unfold mask_or in *; simpl. f_equal. apply IH. lia.
Qed.

Lemma mask_and_map (A : Type) (f g : A -> bool) (l : list A) :
  mask_and (map f l) (map g l) = map (fun x => f x && g x) l.
Proof.
  unfold mask_and. induction l as [|x l IH]; simpl; [reflexivity|].
  now rewrite IH.
Qed.

Lemma all_false_const (A : Type) (l : list A) :
  all_false (map (fun _ => false) l).
Proof.
  intros b Hb. apply in_map_iff in Hb. now destruct Hb as (_ & <- & _).
Qed.

Lemma all_false_and_l (a b : list bool) :
  all_false a -> all_false (mask_and a b).
Proof.
  unfold all_false, mask_and. revert b; induction a as [|x a IH];
    intros [|y b] Ha; simpl; try (now intros ? []).
  intros c [<- | Hc].
  - rewrite (Ha x (or_introl eq_refl)). reflexivity.
  - apply (IH b); [|exact Hc]. intros d Hd. apply Ha. now right.
Qed.

Lemma all_false_and_r (a b : list bool) :
  all_false b -> all_false (mask_and a b).
Proof.
  unfold all_false, mask_and. revert b; induction a as [|x a IH];
    intros [|y b] Hb; simpl; try (now intros ? []).
  intros c [<- | Hc].
  - rewrite (Hb y (or_introl eq_refl)). apply andb_false_r.
  - apply (IH b); [|exact Hc]. intros d Hd. apply Hb. now right.
Qed.

Lemma mask_select_all_false (A : Type) (m : list bool) (rows : list A) :
  all_false m -> mask_select m rows = [].
Proof.
  unfold all_false, mask_select. revert rows; induction m as [|b m IH];
    intros [|x rows] Hm; simpl; try reflexivity.
  rewrite (Hm b (or_introl eq_refl)). simpl. apply IH.
  intros c Hc. apply Hm. now right.
Qed.

Lemma mask_select_map (A : Type) (f : A -> bool) (l : list A) :
  mask_select (map f l) l = filter f l.
Proof.
  unfold mask_select. induction l as [|x l IH]; simpl; [reflexivity|].
  destruct (f x); simpl; now rewrite IH.
Qed.

(** [col.isin(filter(p, col))] is [p] on the column. *)
Lemma isin_filter (p : string -> bool) (col : list string) :
  isin String.eqb col (filter p col) = map p col.
Proof.
  unfold isin. apply map_ext_in. intros x Hx.
  destruct (p x) eqn:Hp.
  - apply existsb_exists. exists x. split.
    + apply filter_In. now split.
    + apply String.eqb_refl.
  - destruct (existsb (String.eqb x) (filter p col)) eqn:He; [|reflexivity].
    apply existsb_exists in He. destruct He as (y & Hy & Hxy).
    apply String.eqb_eq in Hxy. subst y.
    apply filter_In in Hy. destruct Hy as [_ Hy]. congruence.
Qed.

Section FrameFacts.

Variable re_compile : string -> result (string -> bool).

(** One pattern string: the mask is the compiled pattern's [match]. *)
Lemma keep_col_match_one (col : list string) (s : string) (pr : bool)
    (pattern : string -> bool) :
  re_compile (if pr then pseudo_regex_of s else s) = Ok pattern ->
  keep_col_match re_compile col (PStr s) pr = Ok (map pattern col).
Proof.
  intros Hc. unfold keep_col_match. simpl. rewrite Hc. simpl.
  rewrite isin_filter. f_equal. apply mask_or_false_l.
  now rewrite length_map.
Qed.

Lemma keep_col_match_empty (col : list string) (v : pyval) (pr : bool) :
  is_empty_collection v = true ->
  keep_col_match re_compile col v pr = Ok (map (fun _ => false) col).
Proof.
  unfold keep_col_match.
  destruct v as [n|s|l|l|a b c|]; simpl; try discriminate.
  - destruct l; [reflexivity | discriminate].
  - destruct l; [reflexivity | discriminate].
  - destruct (range_items a b c); [reflexivity | discriminate].
Qed.

End FrameFacts.

(** ** select: unknown axes and empty collections *)

Section SelectFacts.

Variable re_compile : string -> result (string -> bool).

Lemma recognised_false (col : string) :
  recognised col = false ->
  is_name_column col = false /\ String.eqb col "variable" = false
  /\ String.eqb col "year" = false.
Proof.
  unfold recognised. intros H.
  apply orb_false_iff in H. destruct H as [H Hy].
  apply orb_false_iff in H. tauto.
Qed.

Lemma keep_entry_unknown (data : list obs) (col : string) (v : pyval) :
  recognised col = false ->
  keep_entry re_compile data col v
  = Raise (SystemError ("filter by column " ++ col ++ " not supported")).
Proof.
  intros H. apply recognised_false in H. destruct H as (Hn & Hv & Hy).
  unfold keep_entry. now rewrite Hn, Hv, Hy.
Qed.

Lemma select_loop_unknown (data : list obs) (fs : dict pyval) :
  (exists col v, In (col, v) fs /\ recognised col = false) ->
  forall keep array,
  exists e, select_loop re_compile data fs keep array = Raise e.
Proof.
  induction fs as [|[c v] fs IH]; intros (col & val & Hin & Hrec) keep array.
  - destruct Hin.
  - simpl. destruct (keep_entry re_compile data c v) as [m|e] eqn:He; simpl.
    + destruct Hin as [Heq | Hin].
      * inversion Heq; subst c v.
        rewrite keep_entry_unknown in He by exact Hrec. discriminate.
      * destruct (array && entry_is_array c v && is_empty keep);
          [now exists TypeError|].
        apply IH. now exists col, val.
    + now exists e.
Qed.

Lemma select_loop_all_false (data : list obs) (fs : dict pyval) :
  forall keep array m, all_false keep ->
  select_loop re_compile data fs keep array = Ok m -> all_false (fst m).
Proof.
  induction fs as [|[c v] fs IH]; intros keep array m Hk; simpl.
  - intros H. inversion H. now subst.
  - destruct (keep_entry re_compile data c v) as [kc|e]; simpl;
      [|discriminate].
    destruct (array && entry_is_array c v && is_empty keep); [discriminate|].
    apply IH. now apply all_false_and_l.
Qed.

Lemma select_loop_empty_entry (data : list obs) (fs : dict pyval)
    (axis : string) (v : pyval) (m0 : list bool) :
  In (axis, v) fs ->
  keep_entry re_compile data axis v = Ok m0 -> all_false m0 ->
  forall keep array m,
  select_loop re_compile data fs keep array = Ok m -> all_false (fst m).
Proof.
  intros Hin He H0.
  induction fs as [|[c w] fs IH]; intros keep array m; simpl.
  - destruct Hin.
  - destruct Hin as [Heq | Hin].
    + inversion Heq; subst c w. rewrite He. simpl.
      destruct (array && entry_is_array axis v && is_empty keep);
        [discriminate|].
      apply select_loop_all_false. now apply all_false_and_r.
    + destruct (keep_entry re_compile data c w) as [kc|e]; simpl;
        [|discriminate].
      destruct (array && entry_is_array c w && is_empty keep);
        [discriminate|].
      now apply IH.
Qed.

Lemma keep_entry_empty (data : list obs) (axis : string) (v : pyval) :
  In axis ["model"; "scenario"; "region"; "variable"]%string ->
  is_empty_collection v = true ->
  keep_entry re_compile data axis v = Ok (map (fun _ => false) data).
Proof.
  intros Hax Hv. unfold keep_entry.
  destruct Hax as [<- | [<- | [<- | [<- | []]]]]; simpl;
    rewrite keep_col_match_empty by exact Hv;
    unfold name_column; simpl; now rewrite !map_map.
Qed.

(** An empty collection on a name axis or on the variable axis leaves the
    mask the array it was made as. *)
Lemma entry_is_array_empty (axis : string) (v : pyval) :
  In axis ["model"; "scenario"; "region"; "variable"]%string ->
  is_empty_collection v = true ->
  entry_is_array axis v = true.
Proof.
  intros Hax Hv. unfold entry_is_array.
  assert (Hit : iter_strings v = Ok []).
  { destruct v as [n|s|l|l|a b c|]; simpl in *; try discriminate.
    - now destruct l.
    - now destruct l.
    - now destruct (range_items a b c). }
  rewrite Hit.
  destruct Hax as [<- | [<- | [<- | [<- | []]]]]; reflexivity.
Qed.

Lemma select_of_mask (data : list obs) (fs : dict pyval)
    (cols idx_cols : option (list column)) (m : list bool * bool)
    (f : frame) :
  select_loop re_compile data fs (map (fun _ => true) data) true = Ok m ->
  all_false (fst m) ->
  select re_compile data fs cols idx_cols = Ok f -> frame_rows f = [].
Proof.
  intros Hm Hf. unfold select. rewrite Hm. simpl.
  rewrite (mask_select_all_false _ _ data Hf).
  destruct (snd m && is_empty (fst m)).
  - destruct (is_empty (truthy cols) && is_empty (truthy idx_cols));
      [|discriminate].
    intros H. now inversion H.
  - intros H. inversion H. simpl.
    now destruct (is_empty (truthy cols)).
Qed.

(** C9. A filter dictionary with an axis name other than model, scenario,
    region, variable and year makes [select] raise: it returns no frame,
    whatever else the dictionary holds and whatever columns are asked for;
    when the unknown axis is the only entry, the exception is the
    SystemError that names it. *)
Theorem select_unknown_axis (data : list obs) (fs : dict pyval)
    (cols idx_cols : option (list column)) (col : string) (v : pyval) :
  In (col, v) fs -> recognised col = false ->
  (exists e, select re_compile data fs cols idx_cols = Raise e)
  /\ (exists e, select_rows re_compile data fs = Raise e)
  /\ select re_compile data [(col, v)] cols idx_cols
     = Raise (SystemError ("filter by column " ++ col ++ " not supported")).
Proof.
  intros Hin Hrec.
  destruct (select_loop_unknown data fs
              (ex_intro _ col (ex_intro _ v (conj Hin Hrec)))
              (map (fun _ => true) data) true) as [e He].
  repeat split.
  - exists e. unfold select. now rewrite He.
  - exists e. unfold select_rows, select_mask. now rewrite He.
  - unfold select. simpl.
    now rewrite keep_entry_unknown by exact Hrec.
Qed.

(** On the axes model, scenario, region and variable an empty collection
    as the filter value gives a mask that is false on every row, so
    [select] with such an entry returns no row: no frame it returns has
    one, and on a store that has a row it does return a frame with that
    entry alone. *)
Theorem select_empty_collection (data : list obs) (fs : dict pyval)
    (cols idx_cols : option (list column)) (axis : string) (v : pyval) :
  In axis ["model"; "scenario"; "region"; "variable"]%string ->
  is_empty_collection v = true ->
  keep_entry re_compile data axis v = Ok (map (fun _ => false) data)
  /\ (In (axis, v) fs ->
      forall f, select re_compile data fs cols idx_cols = Ok f ->
                frame_rows f = [])
  /\ (data <> [] ->
      exists f, select re_compile data [(axis, v)] cols idx_cols = Ok f
                /\ frame_rows f = []).
Proof.
  intros Hax Hv.
  pose proof (keep_entry_empty data axis v Hax Hv) as He.
  split; [exact He|]. split.
  - intros Hin f Hsel.
    destruct (select_loop re_compile data fs (map (fun _ => true) data) true)
      as [m|e] eqn:Hm.
    + apply (select_of_mask data fs cols idx_cols m f Hm); [|exact Hsel].
      apply (select_loop_empty_entry data fs axis v _ Hin He
               (all_false_const _ data) _ _ _ Hm).
    + unfold select in Hsel. rewrite Hm in Hsel. discriminate.
  - intros Hdata.
    assert (Hm : exists m,
               select_loop re_compile data [(axis, v)]
                           (map (fun _ => true) data) true = Ok (m, true)
               /\ all_false m /\ is_empty m = false).
    { simpl. rewrite He. simpl.
      rewrite (entry_is_array_empty axis v Hax Hv).
      destruct data as [|o data]; [congruence|]. simpl.
      eexists. split; [reflexivity|]. split; [|reflexivity].
      apply (all_false_and_r (true :: map (fun _ => true) data)
                             (false :: map (fun _ => false) data)).
      apply (all_false_const _ (o :: data)). }
    destruct Hm as (m & Hm & Hf & Hne).
    destruct (select re_compile data [(axis, v)] cols idx_cols)
      as [f|e] eqn:Hsel.
    + exists f. split; [reflexivity|].
      now apply (select_of_mask _ _ _ _ _ _ Hm Hf Hsel).
    + unfold select in Hsel. rewrite Hm in Hsel. simpl in Hsel.
      rewrite Hne in Hsel. discriminate.
Qed.

(** The same entry first in the dictionary, on a store without rows:
    [keep] and [keep_col] are both arrays of floats, and [select]
    raises. *)
Lemma select_empty_collection_no_rows (fs : dict pyval)
    (cols idx_cols : option (list column)) (axis : string) (v : pyval) :
  In axis ["model"; "scenario"; "region"; "variable"]%string ->
  is_empty_collection v = true ->
  select re_compile [] ((axis, v) :: fs) cols idx_cols = Raise TypeError.
Proof.
  intros Hax Hv. unfold select. cbn [select_loop].
  rewrite (keep_entry_empty [] axis v Hax Hv). simpl.
  now rewrite (entry_is_array_empty axis v Hax Hv).
Qed.

End SelectFacts.

(** ** keep_col_yr *)

Lemma selects_map (A : Type) (f : A -> bool) (P : A -> Prop) (col : list A) :
  (forall x, f x = true <-> P x) -> selects (Ok (map f col)) col P.
Proof.
  intros HP. exists (map f col). split; [reflexivity|].
  split; [apply length_map|].
  intros i x Hx. exists (f x). split; [|apply HP].
  now rewrite nth_error_map, Hx.
Qed.

Lemma in_range_items (start stop step y : Z) :
  In y (range_items start stop step) <->
  exists i : nat, (y = start + Z.of_nat i * step)%Z
                  /\ (Z.of_nat i < range_len start stop step)%Z.
Proof.
  unfold range_items. rewrite in_map_iff. split.
  - intros (i & Hi & Hin). apply in_seq in Hin. exists i. split; [easy|lia].
  - intros (i & Hi & Hlt). exists i. split; [easy|]. apply in_seq. lia.
Qed.

(** [range(start, stop)] is the half-open interval. *)
Lemma range_items_interval (start stop y : Z) :
  In y (range_items start stop 1) <-> (start <= y < stop)%Z.
Proof.
  rewrite in_range_items. unfold range_len. simpl.
  destruct (start <? stop)%Z eqn:Hlt; simpl.
  - apply Z.ltb_lt in Hlt. rewrite Z.div_1_r. split.
    + intros (i & -> & Hi). lia.
    + intros Hy. exists (Z.to_nat (y - start)). lia.
  - apply Z.ltb_ge in Hlt. split.
    + intros (i & -> & Hi). lia.
    + lia.
Qed.

(** Whatever the step, [stop] is not an item of the range. *)
Lemma range_items_stop (start stop step : Z) :
  ~ In stop (range_items start stop step).
Proof.
  rewrite in_range_items. intros (i & Hi & Hlt). unfold range_len in Hlt.
  destruct ((0 <? step) && (start <? stop))%Z eqn:Hup.
  - apply andb_true_iff in Hup. destruct Hup as [Hs Hlt'].
    apply Z.ltb_lt in Hs, Hlt'.
    pose proof (Z.mul_div_le (stop - start - 1) step Hs). nia.
  - destruct ((step <? 0) && (stop <? start))%Z eqn:Hdn; [|lia].
    apply andb_true_iff in Hdn. destruct Hdn as [Hs Hlt'].
    apply Z.ltb_lt in Hs, Hlt'.
    assert (Hpos : (0 < - step)%Z) by lia.
    pose proof (Z.mul_div_le (start - stop - 1) (- step) Hpos). nia.
Qed.

Lemma existsb_elem_is_year (y : Z) (l : list elem) :
  existsb (elem_is_year y) l = true <-> In (EInt y) l.
Proof.
  rewrite existsb_exists. split.
  - intros ([n|s] & Hin & He); simpl in He; [|discriminate].
    apply Z.eqb_eq in He. now subst.
  - intros Hin. exists (EInt y). split; [exact Hin|]. apply Z.eqb_refl.
Qed.

Lemma existsb_Zeqb (y : Z) (l : list Z) :
  existsb (Z.eqb y) l = true <-> In y l.
Proof.
  rewrite existsb_exists. split.
  - intros (n & Hin & He). apply Z.eqb_eq in He. now subst.
  - intros Hin. exists y. split; [exact Hin|]. apply Z.eqb_refl.
Qed.

(** C8. The year filter: an integer keeps the rows of exactly that year;
    a list keeps the rows whose year is in the list; a range keeps the
    rows whose year is an item of the range, [stop] is never one, and the
    items of [range(start, stop)] are the years of [start <= y < stop];
    a value of another type (a string, a tuple, None) raises. *)
Theorem keep_col_yr_spec (col : list Z) (yrs : pyval) :
  match yrs with
  | PInt n => selects (keep_col_yr col yrs) col (fun y => y = n)
  | PList l => selects (keep_col_yr col yrs) col (fun y => In (EInt y) l)
  | PRange start stop step =>
      selects (keep_col_yr col yrs) col
              (fun y => In y (range_items start stop step))
      /\ ~ In stop (range_items start stop step)
      /\ selects (keep_col_yr col (PRange start stop 1)) col
                 (fun y => (start <= y < stop)%Z)
  | PStr _ | PTuple _ | PNone => exists e, keep_col_yr col yrs = Raise e
  end.
Proof.
  destruct yrs as [n|s|l|l|start stop step|]; simpl.
  - apply selects_map. intros y. apply Z.eqb_eq.
  - eexists; reflexivity.
  - apply selects_map. intros y. apply existsb_elem_is_year.
  - eexists; reflexivity.
  - split; [|split].
    + apply selects_map. intros y. apply existsb_Zeqb.
    + apply range_items_stop.
    + apply selects_map. intros y.
      rewrite existsb_Zeqb. apply range_items_interval.
  - eexists; reflexivity.
Qed.

(** In [select], the entry of the year axis is [keep_col_yr] on the year
    column. *)
Lemma keep_entry_year (re_compile : string -> result (string -> bool))
    (data : list obs) (yrs : pyval) :
  keep_entry re_compile data "year" yrs = keep_col_yr (map year data) yrs.
Proof. reflexivity. Qed.

(** ** The bounds of a check *)

Lemma is_true_rows (chk : check_spec) (df : list obs) :
  is_true chk df = map (row_flag chk) df.
Proof.
  unfold is_true, row_flag.
  destruct (chk_up chk) as [u|], (chk_lo chk) as [l|].
  - rewrite !mask_and_map. apply map_ext. reflexivity.
  - rewrite mask_and_map. apply map_ext. intros o. simpl.
    now rewrite andb_true_r.
  - rewrite mask_and_map. reflexivity.
  - apply map_ext. reflexivity.
Qed.

Lemma Qgt_bool_iff (x y : Q) : Qgt_bool x y = true <-> (y < x)%Q.
Proof.
  unfold Qgt_bool. rewrite (Qgt_alt x y).
  destruct (x ?= y)%Q; split; congruence.
Qed.

Lemma row_flag_iff (chk : check_spec) (o : obs) :
  row_flag chk o = true <->
  (forall U, chk_up chk = Some U -> (value o <= U)%Q)
  /\ (forall L, chk_lo chk = Some L -> (L < value o)%Q).
Proof.
  unfold row_flag. rewrite andb_true_iff.
  destruct (chk_up chk) as [u|], (chk_lo chk) as [l|];
    rewrite ?Qle_bool_iff, ?Qgt_bool_iff; split.
  all: try (intros [H1 H2]; split; intros ? Heq; inversion Heq; subst;
            assumption).
  all: try (intros [H1 H2]; split; auto; fail).
  all: try (intros [H1 H2]; split; intros; discriminate).
Qed.

(** C3. The flag [check] computes for a row is true exactly when the
    value is at most the upper bound, if the check has one, and above the
    lower bound, if it has one: a value equal to the upper bound passes
    (when no lower bound forbids it), and a value equal to the lower bound
    fails. *)
Theorem check_bounds (chk : check_spec) (df : list obs) (i : nat) (o : obs) :
  nth_error df i = Some o ->
  exists b, nth_error (is_true chk df) i = Some b
    /\ (b = true <->
        (forall U, chk_up chk = Some U -> (value o <= U)%Q)
        /\ (forall L, chk_lo chk = Some L -> (L < value o)%Q))
    /\ (forall U, chk_up chk = Some U -> chk_lo chk = None ->
                  (value o == U)%Q -> b = true)
    /\ (forall L, chk_lo chk = Some L -> (value o == L)%Q -> b = false).
Proof.
  intros Hi. exists (row_flag chk o).
  split; [now rewrite is_true_rows, nth_error_map, Hi|].
  split; [apply row_flag_iff|]. split.
  - intros U HU HL Heq. apply row_flag_iff. split.
    + intros U' HU'. rewrite HU in HU'. inversion HU'; subst.
      rewrite Heq. apply Qle_refl.
    + intros L HL'. congruence.
  - intros L HL Heq.
    destruct (row_flag chk o) eqn:Hf; [|reflexivity].
    apply row_flag_iff in Hf. destruct Hf as [_ Hlo].
    specialize (Hlo L HL). rewrite Heq in Hlo.
    exfalso. exact (Qlt_irrefl L Hlo).
Qed.

(** ** The pseudo-regex on plain text *)

Lemma not_special (c : ascii) :
  PyRe.is_special c = false ->
  Ascii.eqb c "." = false /\ Ascii.eqb c "$" = false
  /\ Ascii.eqb c "*" = false /\ Ascii.eqb c "\" = false
  /\ Ascii.eqb c "|" = false.
Proof.
  unfold PyRe.is_special, PyRe.specials. simpl. intros H.
  repeat (apply orb_false_iff in H; destruct H as [? H]). tauto.
Qed.

Lemma tokens_plain (s rest : string) :
  plain s = true ->
  PyRe.tokens (str_replace "*" ".*" (str_replace "|" "\|" s) ++ rest)
  = option_map (app (literal_tokens s)) (PyRe.tokens rest).
Proof.
  induction s as [|c s IH]; intros Hp.
  - simpl. now destruct (PyRe.tokens rest).
  - simpl in Hp. apply andb_true_iff in Hp. destruct Hp as [Hc Hs].
    specialize (IH Hs). unfold plain_char in Hc.
    destruct (Ascii.eqb c "|") eqn:Hbar.
    + apply Ascii.eqb_eq in Hbar. subst c. simpl.
      simpl in IH. rewrite IH. now destruct (PyRe.tokens rest).
    + simpl in Hc. apply negb_true_iff in Hc.
      destruct (not_special c Hc) as (Hdot & Hend & Hstar & Hesc & _).
      cbn [str_replace]. rewrite Hbar. cbn [str_replace]. rewrite Hstar.
      cbn [append PyRe.tokens]. rewrite Hesc, Hdot, Hend, Hstar, Hc.
      rewrite IH. now destruct (PyRe.tokens rest).
Qed.

Lemma items_literal (s : string) :
  PyRe.items (literal_tokens s ++ [PyRe.TEnd])
  = Some (literal_items s ++ [PyRe.End_]).
Proof.
  induction s as [|c s IH]; [reflexivity|].
  cbn [literal_tokens literal_items app].
  destruct s as [|d s].
  - reflexivity.
  - cbn [literal_tokens app] in *. cbn [PyRe.items]. cbn [PyRe.items] in IH.
    now rewrite IH.
Qed.

Lemma compile_plain (s : string) :
  plain s = true ->
  PyRe.compile (pseudo_regex_of s)
  = Ok (PyRe.matches (literal_items s ++ [PyRe.End_])).
Proof.
  intros Hp. unfold PyRe.compile, pseudo_regex_of.
  rewrite tokens_plain by exact Hp. simpl.
  now rewrite items_literal.
Qed.

Lemma matches_literal (s v : string) :
  PyRe.matches (literal_items s ++ [PyRe.End_]) v
  = String.eqb v s
    || String.eqb v (s ++ String PyRe.line_feed EmptyString).
Proof.
  revert v; induction s as [|a s IH]; intros v.
  - destruct v as [|c [|d v]]; simpl; try reflexivity;
      now destruct (Ascii.eqb c PyRe.line_feed).
  - destruct v as [|c v]; [reflexivity|].
    cbn [literal_items app PyRe.matches PyRe.atom_ok append String.eqb].
    rewrite IH. now destruct (Ascii.eqb c a).
Qed.

Lemma ends_with_line_feed_append (s : string) :
  ends_with_line_feed (s ++ String PyRe.line_feed EmptyString) = true.
Proof.
  induction s as [|c s IH]; [reflexivity|].
  simpl. simpl in IH. rewrite IH.
  now destruct (s ++ String PyRe.line_feed "")%string.
Qed.

(** A plain filter string matches the variable that is the string, and
    the variable that is the string and a line feed after it. *)
Lemma keep_col_match_plain (s : string) (col : list string) :
  plain s = true ->
  keep_col_match PyRe.compile col (PStr s) true
  = Ok (map (fun v => String.eqb v s
                      || String.eqb v (s ++ String PyRe.line_feed EmptyString))
            col).
Proof.
  intros Hp.
  rewrite (keep_col_match_one PyRe.compile col s true _ (compile_plain s Hp)).
  f_equal. apply map_ext. intros v. apply matches_literal.
Qed.

(** C2, as the code has it. A variable filter string of plain text (no
    character that [re] reads as an operator, the bar apart) matches a
    variable that does not end in a line feed exactly when the two strings
    are the same. *)
Theorem plain_variable_filter_exact (s : string) (col : list string) :
  plain s = true ->
  (forall v, In v col -> ends_with_line_feed v = false) ->
  keep_col_match PyRe.compile col (PStr s) true
  = Ok (map (fun v => String.eqb v s) col).
Proof.
  intros Hp Hlf. rewrite keep_col_match_plain by exact Hp.
  f_equal. apply map_ext_in. intros v Hv.
  destruct (String.eqb v (s ++ String PyRe.line_feed EmptyString)) eqn:He.
  - apply String.eqb_eq in He. specialize (Hlf v Hv).
    rewrite He, ends_with_line_feed_append in Hlf. discriminate.
  - apply orb_false_r.
Qed.

(** C2 as stated fails: a filter without a star whose dot stands for any
    character matches a variable that is another string. *)
Lemma variable_filter_without_star_not_exact :
  ~ (forall (s : string) (col : list string),
       no_star s = true ->
       keep_col_match PyRe.compile col (PStr s) true
       = Ok (map (fun v => String.eqb v s) col)).
Proof.
  intros H.
  specialize (H "Emissions.CO2"%string ["Emissions|CO2"%string] eq_refl).
  vm_compute in H. discriminate.
Qed.

Lemma plain_variable_filter_exact_witness :
  keep_col_match PyRe.compile
    ["Emissions|CO2"; "Emissions|CO2|Energy"; "Emissions"]%string
    (PStr "Emissions|CO2") true
  = Ok [true; false; false].
Proof.
  apply (plain_variable_filter_exact "Emissions|CO2"
           ["Emissions|CO2"; "Emissions|CO2|Energy"; "Emissions"]%string).
  - reflexivity.
  - intros v [<- | [<- | [<- | []]]]; reflexivity.
Defined.

(** ** The filter dictionary of check *)

Lemma heap_get_last (h : heap) (d : dict pyval) :
  heap_get (h ++ [d]) (length h) = d.
Proof.
  unfold heap_get. rewrite app_nth2 by lia. now rewrite Nat.sub_diag.
Qed.

Lemma heap_set_last (h : heap) (d d' : dict pyval) :
  heap_set (h ++ [d]) (length h) d' = h ++ [d'].
Proof. induction h as [|x h IH]; simpl; [reflexivity|]. now rewrite IH. Qed.

Lemma store_last (h : heap) (d : dict pyval) (k : string) (v : pyval) :
  store (h ++ [d]) (length h) k v = h ++ [dict_set d k v].
Proof. unfold store. now rewrite heap_get_last, heap_set_last. Qed.

(** Without a dictionary of the caller, or with an empty one, [check]
    works on a new dictionary and leaves every other one as it is. *)
Lemma check_filters_fresh (variable : string) (chk : check_spec)
    (filters : option ref) (h : heap) :
  match filters with
  | Some r => heap_get h r = []
  | None => True
  end ->
  check_filters variable chk filters h
  = (length h, h ++ [check_dict variable chk]).
Proof.
  intros Hf. unfold check_filters, check_dict.
  assert (Hnew : match filters with
                 | Some r => if is_empty (heap_get h r) then heap_new h
                             else (r, h)
                 | None => heap_new h
                 end = heap_new h).
  { destruct filters as [r|]; [now rewrite Hf | reflexivity]. }
  rewrite Hnew. unfold heap_new.
  destruct (chk_year chk) as [yrs|]; now rewrite ?store_last.
Qed.

Section CheckFacts.

Variable re_compile : string -> result (string -> bool).

Lemma check_fresh (data : list obs) (variable : string) (chk : check_spec)
    (filters : option ref) (ret_true : bool) (h : heap) :
  match filters with
  | Some r => heap_get h r = []
  | None => True
  end ->
  check re_compile data variable chk filters ret_true h
  = (df <- select_rows re_compile data (check_dict variable chk) ;;
     check_frame chk ret_true df,
     h ++ [check_dict variable chk]).
Proof.
  intros Hf. unfold check. rewrite check_filters_fresh by exact Hf.
  now rewrite heap_get_last.
Qed.

End CheckFacts.

(** ** The assignment table *)

Lemma key_eqb_eq (a b : key) : key_eqb a b = true <-> a = b.
Proof.
  destruct a as [a1 a2], b as [b1 b2]. unfold key_eqb. simpl.
  rewrite andb_true_iff, !String.eqb_eq. split.
  - now intros [-> ->].
  - intros H. inversion H. now split.
Qed.

Lemma existsb_key (k : key) (l : list key) :
  existsb (key_eqb k) l = true <-> In k l.
Proof.
  rewrite existsb_exists. split.
  - intros (x & Hin & He). apply key_eqb_eq in He. now subst.
  - intros Hin. exists k. split; [exact Hin|]. now apply key_eqb_eq.
Qed.

Lemma in_all_spec (sets : list (list key)) (k : key) :
  in_all sets k = true <-> forall s, In s sets -> In k s.
Proof.
  unfold in_all. rewrite forallb_forall. split; intros H s Hs.
  - apply existsb_key. now apply H.
  - apply existsb_key. now apply H.
Qed.

Lemma assign_category_keys (t : table) (index : list key) (name : string) :
  map fst (assign_category t index name) = map fst t.
Proof.
  unfold assign_category. rewrite map_map. apply map_ext.
  intros r. now destruct (existsb (key_eqb (fst r)) index).
Qed.

Lemma assign_category_twice (t : table) (index : list key) (name : string) :
  assign_category (assign_category t index name) index name
  = assign_category t index name.
Proof.
  unfold assign_category. rewrite map_map. apply map_ext.
  intros r. destruct (existsb (key_eqb (fst r)) index) eqn:He; simpl;
    now rewrite He.
Qed.

(** After the assignment a key of the index has the new label on each of
    its rows, and it has a row if it had one. *)
Lemma assign_category_label (t : table) (index : list key) (name : string)
    (k : key) :
  In k index ->
  (In k (map fst t) -> In (k, Some name) (assign_category t index name))
  /\ (forall l, In (k, l) (assign_category t index name) -> l = Some name).
Proof.
  intros Hk. apply existsb_key in Hk. unfold assign_category. split.
  - intros Hin. apply in_map_iff in Hin. destruct Hin as ([k' l] & Hfst & Hin).
    simpl in Hfst. subst k'. apply in_map_iff. exists (k, l).
    split; [|exact Hin]. simpl. now rewrite Hk.
  - intros l Hin. apply in_map_iff in Hin.
    destruct Hin as ([k' l'] & Heq & _). simpl in Heq.
    destruct (existsb (key_eqb k') index) eqn:He.
    + now inversion Heq.
    + inversion Heq. subst. congruence.
Qed.

Lemma filter_filter_and (A : Type) (p q : A -> bool) (l : list A) :
  filter q (filter p l) = filter (fun x => p x && q x) l.
Proof.
  induction l as [|x l IH]; simpl; [reflexivity|].
  destruct (p x); simpl; [destruct (q x)|]; now rewrite IH.
Qed.

Lemma filter_all (A : Type) (p : A -> bool) (l : list A) :
  (forall x, p x = true) -> filter p l = l.
Proof.
  intros Hp. induction l as [|x l IH]; simpl; [reflexivity|].
  now rewrite Hp, IH.
Qed.

Lemma filter_none (A : Type) (p : A -> bool) (l : list A) :
  (forall x, p x = false) -> filter p l = [].
Proof.
  intros Hp. induction l as [|x l IH]; simpl; [reflexivity|].
  now rewrite Hp, IH.
Qed.

Section CategoryFacts.

Variable re_compile : string -> result (string -> bool).

(** The index [category] ends its loop with: the keys of the table that
    are in the index of every check. *)
Lemma category_loop_sets (data : list obs) (items : dict check_spec)
    (filters : option ref) :
  forall (keys : list key) (h : heap),
  fst (category_loop re_compile data items filters keys h)
  = (sets <- check_indexes re_compile data items filters h ;;
     Ok (filter (in_all sets) keys)).
Proof.
  induction items as [|[var chk] rest IH]; intros keys h; simpl.
  - now rewrite filter_all.
  - destruct (check re_compile data var chk filters true h) as [[r|e] h'];
      simpl; [|reflexivity].
    rewrite IH.
    destruct (check_indexes re_compile data rest filters h') as [sets|e];
      simpl; [|reflexivity].
    unfold intersection. now rewrite filter_filter_and.
Qed.

(** The table [category] leaves. *)
Lemma category_cat (data : list obs) (name : string)
    (criteria : option (dict check_spec)) (filters : option ref)
    (assign : bool) (display : display_style) (w : world) :
  cat (snd (category re_compile data name criteria filters assign display w))
  = if negb (String.eqb name "") && is_empty (truthy criteria) then cat w
    else
      match criteria with
      | None => cat w
      | Some c =>
          match fst (category_loop re_compile data c filters
                                   (map fst (cat w)) (filter_objects w)) with
          | Ok index =>
              if is_empty index || negb assign then cat w
              else assign_category (cat w) index name
          | Raise _ => cat w
          end
      end.
Proof.
  unfold category.
  destruct (negb (String.eqb name "") && is_empty (truthy criteria));
    [reflexivity|].
  destruct criteria as [c|]; [|reflexivity].
  destruct (category_loop re_compile data c filters (map fst (cat w))
                          (filter_objects w)) as [[index|e] h];
    simpl; [|reflexivity].
  destruct (is_empty index); simpl; [reflexivity|].
  destruct assign, display; reflexivity.
Qed.

Lemma category_keys (data : list obs) (name : string)
    (criteria : option (dict check_spec)) (filters : option ref)
    (assign : bool) (display : display_style) (w : world) :
  map fst (cat (snd (category re_compile data name criteria filters assign
                              display w)))
  = map fst (cat w).
Proof.
  rewrite category_cat.
  destruct (negb (String.eqb name "") && is_empty (truthy criteria));
    [reflexivity|].
  destruct criteria as [c|]; [|reflexivity].
  destruct (fst (category_loop re_compile data c filters (map fst (cat w))
                               (filter_objects w))) as [index|e];
    [|reflexivity].
  destruct (is_empty index || negb assign); [reflexivity|].
  apply assign_category_keys.
Qed.

(** Without a dictionary of the caller the checks of [category] do not
    depend on the heap they run in. *)
Lemma check_indexes_fresh (data : list obs) (items : dict check_spec) :
  forall h h' : heap,
  check_indexes re_compile data items None h
  = check_indexes re_compile data items None h'.
Proof.
  induction items as [|[var chk] rest IH]; intros h h';
    cbn [check_indexes]; [reflexivity|].
  rewrite !check_fresh by exact I.
  destruct (select_rows re_compile data (check_dict var chk)) as [df|e];
    simpl; [|reflexivity].
  now rewrite (IH (h ++ [check_dict var chk]) (h' ++ [check_dict var chk])).
Qed.

Lemma some_criteria (name : string) (c : dict check_spec) :
  c <> [] ->
  negb (String.eqb name "") && is_empty (truthy (Some c)) = false.
Proof.
  intros Hc. destruct c; [congruence|]. apply andb_false_r.
Qed.

(** C5. When [category] with criteria A and then [category] with
    criteria B both qualify the entity key K (K is in the index of every
    check of either call), K has the label A after the first call and,
    after the second, the label B on its row and no other label; the keys
    of the table are the same throughout, so a key has as many rows as it
    had. *)
Theorem category_overwrite (data : list obs) (A B : string)
    (cA cB : dict check_spec) (fA fB : option ref)
    (dA dB : display_style) (w : world)
    (setsA setsB : list (list key)) (K : key) :
  cA <> [] -> cB <> [] -> In K (map fst (cat w)) ->
  let w1 := snd (category re_compile data A (Some cA) fA true dA w) in
  let w2 := snd (category re_compile data B (Some cB) fB true dB w1) in
  check_indexes re_compile data cA fA (filter_objects w) = Ok setsA ->
  (forall s, In s setsA -> In K s) ->
  check_indexes re_compile data cB fB (filter_objects w1) = Ok setsB ->
  (forall s, In s setsB -> In K s) ->
  In (K, Some A) (cat w1)
  /\ In (K, Some B) (cat w2)
  /\ (forall l, In (K, l) (cat w2) -> l = Some B)
  /\ map fst (cat w2) = map fst (cat w).
Proof.
  intros HcA HcB HK w1 w2 HsA HKA HsB HKB.
  assert (Hkeys1 : map fst (cat w1) = map fst (cat w))
    by apply category_keys.
  assert (Hcat1 : cat w1
                  = assign_category (cat w)
                      (filter (in_all setsA) (map fst (cat w))) A).
  { unfold w1. rewrite category_cat, some_criteria by exact HcA.
    rewrite category_loop_sets, HsA. simpl.
    destruct (filter (in_all setsA) (map fst (cat w))) eqn:Hf;
      [|reflexivity].
    exfalso. assert (Hin : In K (filter (in_all setsA) (map fst (cat w)))).
    { apply filter_In. split; [exact HK|]. now apply in_all_spec. }
    now rewrite Hf in Hin. }
  assert (Hcat2 : cat w2
                  = assign_category (cat w1)
                      (filter (in_all setsB) (map fst (cat w1))) B).
  { unfold w2. rewrite category_cat, some_criteria by exact HcB.
    rewrite category_loop_sets, HsB. simpl.
    destruct (filter (in_all setsB) (map fst (cat w1))) eqn:Hf;
      [|reflexivity].
    exfalso. assert (Hin : In K (filter (in_all setsB) (map fst (cat w1)))).
    { apply filter_In. split; [now rewrite Hkeys1|]. now apply in_all_spec. }
    now rewrite Hf in Hin. }
  assert (HinA : In K (filter (in_all setsA) (map fst (cat w)))).
  { apply filter_In. split; [exact HK|]. now apply in_all_spec. }
  assert (HinB : In K (filter (in_all setsB) (map fst (cat w1)))).
  { apply filter_In. split; [now rewrite Hkeys1|]. now apply in_all_spec. }
  split; [|split; [|split]].
  - rewrite Hcat1. now apply assign_category_label.
  - rewrite Hcat2. apply assign_category_label; [exact HinB|].
    now rewrite Hkeys1.
  - rewrite Hcat2. now apply assign_category_label.
  - unfold w2. now rewrite category_keys.
Qed.

(** C6. When no entity key is in the index of every check of the
    criteria, [category] leaves the assignment table as it was, returns
    nothing and prints that no scenario satisfies the criteria. *)
Theorem category_nothing_matched (data : list obs) (name : string)
    (c : dict check_spec) (filters : option ref) (assign : bool)
    (display : display_style) (w : world) (sets : list (list key)) :
  c <> [] ->
  check_indexes re_compile data c filters (filter_objects w) = Ok sets ->
  (forall k, in_all sets k = false) ->
  let r := category re_compile data name (Some c) filters assign display w in
  fst r = Ok NoView
  /\ cat (snd r) = cat w
  /\ stdout (snd r) = (stdout w ++ [no_scenario])%list.
Proof.
  intros Hc Hs Hnone r. unfold r, category.
  rewrite some_criteria by exact Hc.
  pose proof (category_loop_sets data c filters (map fst (cat w))
                                 (filter_objects w)) as Hloop.
  rewrite Hs in Hloop. simpl in Hloop.
  rewrite filter_none in Hloop by exact Hnone.
  destruct (category_loop re_compile data c filters (map fst (cat w))
                          (filter_objects w)) as [res h].
  simpl in Hloop. subst res. simpl. repeat split.
Qed.

(** C7. [category(name, criteria)], called without filters, leaves the
    same assignment table when it is called a second time with the same
    arguments as after the first call. *)
Theorem category_idempotent (data : list obs) (name : string)
    (criteria : option (dict check_spec)) (assign : bool)
    (display : display_style) (w : world) :
  let once :=
    snd (category re_compile data name criteria None assign display w) in
  let twice :=
    snd (category re_compile data name criteria None assign display once) in
  cat twice = cat once.
Proof.
  intros once twice.
  assert (Hkeys : map fst (cat once) = map fst (cat w))
    by apply category_keys.
  unfold twice. rewrite category_cat.
  destruct (negb (String.eqb name "") && is_empty (truthy criteria)) eqn:Hr;
    [reflexivity|].
  destruct criteria as [c|]; [|reflexivity].
  rewrite category_loop_sets, Hkeys.
  rewrite (check_indexes_fresh data c (filter_objects once) (filter_objects w)).
  assert (Hcat : cat once
    = match (sets <- check_indexes re_compile data c None (filter_objects w) ;;
             Ok (filter (in_all sets) (map fst (cat w)))) with
      | Ok index => if is_empty index || negb assign then cat w
                    else assign_category (cat w) index name
      | Raise _ => cat w
      end).
  { unfold once. rewrite category_cat, Hr. now rewrite category_loop_sets. }
  destruct (check_indexes re_compile data c None (filter_objects w))
    as [sets|e]; simpl in *; [|reflexivity].
  destruct (is_empty (filter (in_all sets) (map fst (cat w))) || negb assign);
    [reflexivity|].
  rewrite Hcat. apply assign_category_twice.
Qed.

End CategoryFacts.

(** ** check on data with more than one row per year *)

(** C1, where the code departs from it. In the branch for all years
    [check] counts the satisfying rows of a key, not its years. With a
    second region in 2010, the entity that meets the bound in three of the
    four years has four satisfying rows and is returned; the entity that
    meets it in all four years has five and is not. *)
Theorem check_all_years_counts_rows :
  fst (check PyRe.compile three_of_four "V" up_to_10 None true [])
  = Ok (AllYears [m1s1])
  /\ years_satisfied up_to_10 three_of_four m1s1 = [2010; 2020; 2030]%Z
  /\ years_queried three_of_four = [2010; 2020; 2030; 2040]%Z
  /\ fst (check PyRe.compile four_of_four "V" up_to_10 None true [])
     = Ok (AllYears [])
  /\ years_satisfied up_to_10 four_of_four m1s1 = years_queried four_of_four.
Proof. repeat split; vm_compute; reflexivity. Qed.

(** The example of the specification, where every year has one row. *)
Example check_two_years :
  fst (check PyRe.compile two_years "V" up_to_10 None true [])
  = Ok (AllYears [])
  /\ fst (check PyRe.compile two_years "V" up_to_10_in_2010 None true [])
     = Ok (ByYear [(m1s1, 2010%Z)]).
Proof. split; vm_compute; reflexivity. Qed.

(** ** The caller's filter dictionary *)

(** C4, where the code departs from it. A dictionary of the caller that
    is not empty is the object [check] writes to: after the call it holds
    the year of the check and the variable, and so it does after
    [category] and [validate], which pass it on. *)
Theorem check_writes_into_caller_filters :
  snd (check PyRe.compile two_years "V" up_to_10_in_2010 (Some 0%nat) true
             [world_only])
  = [[("region", PStr "World"); ("year", PInt 2010);
      ("variable", PStr "V")]%string]
  /\ filter_objects
       (snd (category PyRe.compile two_years "X"
                      (Some [("V"%string, up_to_10_in_2010)]) (Some 0%nat)
                      true DisplayOther (start two_years [world_only])))
     = [[("region", PStr "World"); ("year", PInt 2010);
         ("variable", PStr "V")]%string]
  /\ filter_objects
       (snd (validate PyRe.compile two_years
                      [("V"%string, up_to_10_in_2010)] 0%nat false
                      (start two_years [world_only])))
     = [[("region", PStr "World"); ("year", PInt 2010);
         ("variable", PStr "V")]%string].
Proof. repeat split; vm_compute; reflexivity. Qed.

(** The year one criterion writes stays in the caller's dictionary for
    the criteria after it, and for the next call: with a dictionary of the
    caller, a second identical [category] call labels an entity that the
    first did not. *)
Lemma category_twice_with_caller_filters :
  let once :=
    snd (category PyRe.compile two_variables "X" (Some v_then_w)
                  (Some 0%nat) true DisplayOther
                  (start two_variables [world_only])) in
  let twice :=
    snd (category PyRe.compile two_variables "X" (Some v_then_w)
                  (Some 0%nat) true DisplayOther once) in
  cat once = [(m1s1, None)] /\ cat twice = [(m1s1, Some "X"%string)].
Proof. split; vm_compute; reflexivity. Qed.

(** ** Instances *)

Lemma check_bounds_witness :
  nth_error (is_true up_to_10 [row "m1" "s1" "r1" "V" 2010 10]) 0 = Some true
  /\ nth_error (is_true (CheckSpec None (Some (inject_Z 10)) None)
                        [row "m1" "s1" "r1" "V" 2010 10]) 0 = Some false.
Proof.
  split.
  - destruct (check_bounds up_to_10 [row "m1" "s1" "r1" "V" 2010 10] 0
                (row "m1" "s1" "r1" "V" 2010 10) eq_refl)
      as (b & Hb & _ & Hup & _).
    rewrite Hb. f_equal. apply (Hup (inject_Z 10)); reflexivity.
  - destruct (check_bounds (CheckSpec None (Some (inject_Z 10)) None)
                [row "m1" "s1" "r1" "V" 2010 10] 0
                (row "m1" "s1" "r1" "V" 2010 10) eq_refl)
      as (b & Hb & _ & _ & Hlo).
    rewrite Hb. f_equal. apply (Hlo (inject_Z 10)); reflexivity.
Defined.

Lemma select_unknown_axis_witness :
  select PyRe.compile two_years [("unit"%string, PStr "Mt/yr")] None None
  = Raise (SystemError "filter by column unit not supported").
Proof.
  apply (select_unknown_axis PyRe.compile two_years
           [("unit"%string, PStr "Mt/yr")] None None "unit" (PStr "Mt/yr")).
  - left. reflexivity.
  - reflexivity.
Defined.

(** C10, where the code departs from it. On a store without rows
    [select] with an empty collection as its first filter returns no
    result: the entry's mask and [select]'s own are both arrays of floats
    ([np.array([False] * 0)]), and [keep & keep_col] raises a TypeError. On
    a store with rows the same filter returns a frame without rows. *)
Theorem select_empty_collection_on_empty_store :
  select PyRe.compile [] [("model"%string, PList [])] None None
  = Raise TypeError
  /\ select_rows PyRe.compile [] [("model"%string, PList [])]
     = Raise TypeError
  /\ keep_entry PyRe.compile [] "model" (PList []) = Ok []
  /\ select_rows PyRe.compile two_years [("model"%string, PList [])]
     = Ok [].
Proof. repeat split. Qed.

Lemma select_empty_collection_witness :
  exists f,
    select PyRe.compile two_years [("model"%string, PList [])] None None
    = Ok f
    /\ frame_rows f = [].
Proof.
  apply (select_empty_collection PyRe.compile two_years
           [("model"%string, PList [])] None None "model" (PList [])).
  - left. reflexivity.
  - reflexivity.
  - discriminate.
Defined.

Lemma category_overwrite_witness :
  let w := start two_years [] in
  let w1 := snd (category PyRe.compile two_years "A"
                          (Some [("V"%string, up_to_10_in_2010)]) None true
                          DisplayOther w) in
  let w2 := snd (category PyRe.compile two_years "B"
                          (Some [("V"%string, up_to_10_in_2010)]) None true
                          DisplayOther w1) in
  In (m1s1, Some "B"%string) (cat w2)
  /\ forall l, In (m1s1, l) (cat w2) -> l = Some "B"%string.
Proof.
  intros w w1 w2.
  destruct (category_overwrite PyRe.compile two_years "A" "B"
              [("V"%string, up_to_10_in_2010)]
              [("V"%string, up_to_10_in_2010)]
              None None DisplayOther DisplayOther w
              [[m1s1]] [[m1s1]] m1s1) as (_ & HB & Honly & _).
  - discriminate.
  - discriminate.
  - left. reflexivity.
  - reflexivity.
  - intros s [<- | []]. left. reflexivity.
  - reflexivity.
  - intros s [<- | []]. left. reflexivity.
  - split; [exact HB | exact Honly].
Defined.

Lemma category_nothing_matched_witness :
  let r := category PyRe.compile two_years "X"
                    (Some [("V"%string, up_to_10)]) None true DisplayOther
                    (start two_years []) in
  fst r = Ok NoView
  /\ cat (snd r) = init_cat two_years
  /\ stdout (snd r) = [no_scenario].
Proof.
  apply (category_nothing_matched PyRe.compile two_years "X"
           [("V"%string, up_to_10)] None true DisplayOther
           (start two_years []) [[]]).
  - discriminate.
  - reflexivity.
  - intros k. reflexivity.
Defined.

(** ** check over all years, where each year has one row per entity *)

Section DropDuplicates.

Variable A : Type.
Variable eqb : A -> A -> bool.
Hypothesis eqb_spec : forall a b, eqb a b = true <-> a = b.

Lemma existsb_eqb (x : A) (l : list A) : existsb (eqb x) l = true <-> In x l.
Proof.
  rewrite existsb_exists. split.
  - intros (y & Hin & He). apply eqb_spec in He. now subst.
  - intros Hin. exists x. split; [exact Hin|]. now apply eqb_spec.
Qed.

Lemma drop_dups_from_in (x : A) (l : list A) :
  forall seen, In x (drop_dups_from eqb seen l) <-> In x l /\ ~ In x seen.
Proof.
  induction l as [|y l IH]; intros seen; simpl; [tauto|].
  destruct (existsb (eqb y) seen) eqn:He.
  - apply existsb_eqb in He. rewrite IH. split.
    + tauto.
    + intros [[-> | Hin] Hn]; tauto.
  - assert (Hy : ~ In y seen).
    { intros Hin. apply existsb_eqb in Hin. congruence. }
    simpl. rewrite IH. simpl. split.
    + intros [-> | [Hin Hn]]; [tauto|]. split; [tauto|]. tauto.
    + intros [[-> | Hin] Hn]; [tauto|].
      destruct (eqb y x) eqn:Hyx.
      * apply eqb_spec in Hyx. tauto.
      * right. split; [exact Hin|]. intros [-> | H]; [|tauto].
        assert (eqb x x = true) by now apply eqb_spec. congruence.
Qed.

Lemma drop_duplicates_in (x : A) (l : list A) :
  In x (drop_duplicates eqb l) <-> In x l.
Proof. unfold drop_duplicates. rewrite drop_dups_from_in. simpl. tauto. Qed.

Lemma drop_dups_from_nodup (l : list A) :
  NoDup l -> forall seen, (forall x, In x l -> ~ In x seen) ->
  drop_dups_from eqb seen l = l.
Proof.
  induction 1 as [|y l Hy Hnd IH]; intros seen Hseen; simpl; [reflexivity|].
  destruct (existsb (eqb y) seen) eqn:He.
  - apply existsb_eqb in He. exfalso. apply (Hseen y); simpl; tauto.
  - f_equal. apply IH. intros x Hx [-> | Hin]; [tauto|].
    apply (Hseen x); simpl; tauto.
Qed.

Lemma drop_duplicates_nodup (l : list A) :
  NoDup l -> drop_duplicates eqb l = l.
Proof. intros H. apply drop_dups_from_nodup; [exact H|]. now intros x _. Qed.

Lemma drop_dups_from_NoDup (l : list A) :
  forall seen, NoDup (drop_dups_from eqb seen l).
Proof.
  induction l as [|y l IH]; intros seen; simpl; [constructor|].
  destruct (existsb (eqb y) seen); [apply IH|].
  constructor; [|apply IH].
  rewrite drop_dups_from_in. simpl. tauto.
Qed.

Lemma drop_duplicates_NoDup (l : list A) : NoDup (drop_duplicates eqb l).
Proof. apply drop_dups_from_NoDup. Qed.

End DropDuplicates.

(** The table of [__init__] has one row per entity key of the data. *)
Lemma init_cat_keys (data : list obs) :
  NoDup (map fst (init_cat data))
  /\ forall k, In k (map fst (init_cat data)) <-> In k (map key_of data).
Proof.
  unfold init_cat. rewrite map_map. simpl. rewrite map_id. split.
  - apply (drop_duplicates_NoDup key key_eqb key_eqb_eq).
  - intros k. apply (drop_duplicates_in key key_eqb key_eqb_eq).
Qed.

(** Rows that differ under [g] still do once some are filtered out. *)
Lemma filter_keeps_distinct (B : Type) (g : obs -> B) (keep : obs -> bool) :
  forall rows : list obs,
  NoDup (map g rows) -> NoDup (map g (filter keep rows)).
Proof.
  intros rows. induction rows as [|o rows IH]; intros Hd; [exact Hd|].
  cbn [map filter] in *. apply NoDup_cons_iff in Hd. destruct Hd as [Ho Hd].
  destruct (keep o); cbn [map]; [|exact (IH Hd)].
  apply NoDup_cons; [|exact (IH Hd)].
  intros Hin. apply Ho. apply in_map_iff in Hin.
  destruct Hin as (o' & Heq & Hin). rewrite <- Heq.
  apply in_map. apply filter_In in Hin. exact (proj1 Hin).
Qed.

Lemma NoDup_map_on (A B : Type) (f : A -> B) (l : list A) :
  (forall x y, In x l -> In y l -> f x = f y -> x = y) ->
  NoDup l -> NoDup (map f l).
Proof.
  intros Hinj Hnd. induction Hnd as [|x l Hx Hnd IH]; simpl; constructor.
  - intros Hin. apply in_map_iff in Hin. destruct Hin as (y & Hy & Hin).
    assert (y = x) by (apply Hinj; simpl; auto). now subst.
  - apply IH. intros a b Ha Hb. apply Hinj; simpl; auto.
Qed.

Lemma satisfying_rows (chk : check_spec) (df : list obs) :
  satisfying chk df
  = map (fun o => (key_of o, year o)) (filter (row_flag chk) df).
Proof. unfold satisfying. now rewrite is_true_rows, mask_select_map. Qed.

Lemma key_year_rows_of (k : key) (rows : list (key * Z)) :
  NoDup rows ->
  NoDup (map snd (filter (fun r => key_eqb (fst r) k) rows)).
Proof.
  intros Hnd. apply NoDup_map_on; [|now apply NoDup_filter].
  intros [k1 y1] [k2 y2] H1 H2. simpl. intros ->.
  apply filter_In in H1, H2. simpl in *.
  destruct H1 as [_ H1], H2 as [_ H2].
  apply key_eqb_eq in H1, H2. congruence.
Qed.

Lemma insert_key_in (k x : key) (l : list key) :
  In x (insert_key k l) <-> x = k \/ In x l.
Proof.
  induction l as [|y l IH]; simpl.
  - split; [intros [<- | []]; now left | intros [-> | []]; now left].
  - destruct (key_leb k y); simpl; [|rewrite IH]; split; intuition.
Qed.

Lemma sort_keys_in (x : key) (l : list key) : In x (sort_keys l) <-> In x l.
Proof.
  induction l as [|y l IH]; simpl; [reflexivity|].
  rewrite insert_key_in, IH. split; intuition.
Qed.

Lemma insert_key_NoDup (k : key) (l : list key) :
  ~ In k l -> NoDup l -> NoDup (insert_key k l).
Proof.
  induction l as [|y l IH]; simpl; intros Hk Hnd.
  - constructor; [intros [] | constructor].
  - destruct (key_leb k y).
    + constructor; [exact Hk | exact Hnd].
    + apply NoDup_cons_iff in Hnd. destruct Hnd as [Hy Hnd].
      constructor.
      * rewrite insert_key_in. intros [-> | Hin]; [|contradiction].
        apply Hk. now left.
      * apply IH; [|exact Hnd]. intros Hin. apply Hk. now right.
Qed.

Lemma sort_keys_NoDup (l : list key) : NoDup l -> NoDup (sort_keys l).
Proof.
  induction 1 as [|y l Hy Hnd IH]; simpl; [constructor|].
  apply insert_key_NoDup; [|exact IH]. now rewrite sort_keys_in.
Qed.

Lemma in_groupby_count (rows : list (key * Z)) (k : key) (n : nat) :
  In (k, n) (groupby_count rows) <->
  In k (map fst rows)
  /\ n = length (filter (fun r => key_eqb (fst r) k) rows).
Proof.
  unfold groupby_count. rewrite in_map_iff. split.
  - intros (k' & Heq & Hin). inversion Heq; subst.
    apply (proj1 (sort_keys_in _ _)) in Hin.
    apply (proj1 (drop_duplicates_in key key_eqb key_eqb_eq _ _)) in Hin.
    split; [exact Hin | reflexivity].
  - intros [Hin ->]. exists k. split; [reflexivity|].
    apply sort_keys_in.
    now apply (drop_duplicates_in key key_eqb key_eqb_eq).
Qed.

(** X9. When no two rows of the selection have the same model, scenario
    and year, the branch for all years returns the keys of the selection
    whose number of years with a satisfying row is the number of years of
    the selection. *)
Lemma check_all_years_one_row_per_year (chk : check_spec) (df : list obs)
    (k : key) :
  NoDup (map (fun o => (key_of o, year o)) df) ->
  match chk_year chk with
  | Some (PInt _) => False
  | _ => True
  end ->
  exists index,
    check_frame chk true df = Ok (AllYears index)
    /\ (In k index <->
        In k (map key_of df)
        /\ length (years_satisfied chk df k) = length (years_queried df)).
Proof.
  intros Hnd Hyr. eexists. split.
  { unfold check_frame.
    destruct (chk_year chk) as [[]|]; try reflexivity. destruct Hyr. }
  assert (Hsat : NoDup (satisfying chk df)).
  { rewrite satisfying_rows. now apply filter_keeps_distinct. }
  assert (Hlen : length (years_satisfied chk df k)
                 = length (filter (fun r => key_eqb (fst r) k)
                                  (satisfying chk df))).
  { unfold years_satisfied.
    rewrite (drop_duplicates_nodup Z Z.eqb Z.eqb_eq)
      by now apply key_year_rows_of.
    apply length_map. }
  rewrite Hlen. fold (years_queried df).
  rewrite in_map_iff. split.
  - intros ([k' n] & Hk & Hin). simpl in Hk. subst k'.
    apply filter_In in Hin. destruct Hin as [Hin Hn]. simpl in Hn.
    apply Nat.eqb_eq in Hn. apply in_groupby_count in Hin.
    destruct Hin as [Hin Hcount]. split; [|congruence].
    rewrite satisfying_rows, map_map in Hin. simpl in Hin.
    apply in_map_iff in Hin. destruct Hin as (o & Ho & Hin).
    apply filter_In in Hin. apply in_map_iff. exists o. tauto.
  - intros [Hin Hcount].
    exists (k, length (filter (fun r => key_eqb (fst r) k)
                               (satisfying chk df))).
    split; [reflexivity|]. apply filter_In. split.
    + apply in_groupby_count. split; [|reflexivity].
      destruct (filter (fun r => key_eqb (fst r) k) (satisfying chk df))
        as [|r rs] eqn:Hf.
      * exfalso. simpl in Hcount. apply in_map_iff in Hin.
        destruct Hin as (o & _ & Ho).
        assert (Hy : In (year o) (years_queried df)).
        { apply (drop_duplicates_in Z Z.eqb Z.eqb_eq). now apply in_map. }
        destruct (years_queried df); [destruct Hy | discriminate].
      * assert (Hr : In r (filter (fun r => key_eqb (fst r) k)
                                  (satisfying chk df)))
          by (rewrite Hf; now left).
        apply filter_In in Hr. destruct Hr as [Hr Hk].
        apply key_eqb_eq in Hk. subst k. now apply in_map.
    + simpl. now apply Nat.eqb_eq.
Qed.

(** ** select: how the entries of a filter dictionary combine *)

Lemma kept_mask_and (a b : list bool) (i : nat) :
  kept (mask_and a b) i <-> kept a i /\ kept b i.
Proof.
  unfold kept, mask_and. revert b i.
  induction a as [|x a IH]; intros [|y b] [|i]; simpl;
    try (split; [discriminate | intros [? ?]; discriminate]).
  - destruct x, y; simpl; split; try discriminate; try tauto;
      intros [? ?]; discriminate.
  - apply IH.
Qed.

Lemma kept_all_true (A : Type) (l : list A) (i : nat) :
  kept (map (fun _ => true) l) i <-> (i < length l)%nat.
Proof.
  unfold kept. rewrite nth_error_map. split.
  - intros H. apply nth_error_Some. destruct (nth_error l i); discriminate.
  - intros H. apply nth_error_Some in H. now destruct (nth_error l i).
Qed.

Lemma length_mask_and (a b : list bool) :
  length a = length b -> length (mask_and a b) = length a.
Proof.
  intros H. unfold mask_and. rewrite length_map, length_combine. lia.
Qed.

Lemma length_mask_or (a b : list bool) :
  length a = length b -> length (mask_or a b) = length a.
Proof.
  intros H. unfold mask_or. rewrite length_map, length_combine. lia.
Qed.

Lemma mask_select_in (A : Type) (m : list bool) (rows : list A) :
  incl (mask_select m rows) rows.
Proof.
  intros x Hx. unfold mask_select in Hx. apply in_map_iff in Hx.
  destruct Hx as ([b y] & Heq & Hin). simpl in Heq. subst y.
  apply filter_In in Hin. destruct Hin as [Hin _].
  now apply in_combine_r in Hin.
Qed.

(** A mask that keeps no more rows selects no more rows. *)
Lemma mask_select_narrow (A : Type) (rows : list A) :
  forall m1 m2 : list bool,
  (forall i, kept m2 i -> kept m1 i) ->
  incl (mask_select m2 rows) (mask_select m1 rows)
  /\ (length (mask_select m2 rows) <= length (mask_select m1 rows))%nat.
Proof.
  unfold mask_select.
  induction rows as [|x rows IH]; intros m1 m2 H.
  - destruct m1, m2; simpl; split; auto using incl_refl.
  - destruct m2 as [|b2 m2]; [simpl; split; [intros ? []|lia]|].
    destruct m1 as [|b1 m1].
    + destruct (IH [] m2) as [Hi Hl].
      { intros i Hi. specialize (H (S i) Hi). destruct i; discriminate. }
      destruct b2; [specialize (H O eq_refl); discriminate|].
      simpl in *. now split.
    + destruct (IH m1 m2) as [Hi Hl].
      { intros i Hk. exact (H (S i) Hk). }
      destruct b2; simpl.
      * pose proof (H O eq_refl) as H0. unfold kept in H0. simpl in H0.
        inversion H0; subst b1. simpl. split; [|lia].
        intros y [<- | Hy]; [now left | right; now apply Hi].
      * destruct b1; simpl; split; try lia; try exact Hi.
        intros y Hy. right. now apply Hi.
Qed.

Section SelectCombination.

Variable re_compile : string -> result (string -> bool).

Lemma match_loop_length (col : list string) (pr : bool) :
  forall (strings : list elem) (keep m : list bool),
  match_loop re_compile col pr strings keep = Ok m ->
  length keep = length col -> length m = length col.
Proof.
  induction strings as [|[n|s] rest IH]; intros keep m; simpl.
  - intros H Hl. inversion H. now subst.
  - discriminate.
  - destruct (re_compile (if pr then pseudo_regex_of s else s)) as [p|e];
      simpl; [|discriminate].
    intros H Hl. apply (IH _ _ H).
    rewrite length_mask_or; [exact Hl|]. unfold isin.
    now rewrite length_map.
Qed.

Lemma keep_entry_length (data : list obs) (col : string) (v : pyval)
    (m : list bool) :
  keep_entry re_compile data col v = Ok m -> length m = length data.
Proof.
  unfold keep_entry, keep_col_match, name_column.
  destruct (is_name_column col).
  - destruct (iter_strings v) as [ss|e]; simpl; [|discriminate].
    intros H. apply match_loop_length in H;
      destruct (String.eqb col "model"), (String.eqb col "scenario");
      now rewrite ?length_map in *.
  - destruct (String.eqb col "variable").
    + destruct (iter_strings v) as [ss|e]; simpl; [|discriminate].
      intros H. apply match_loop_length in H; now rewrite ?length_map in *.
    + destruct (String.eqb col "year"); [|discriminate].
      destruct v; simpl; intros H; inversion H; unfold isin;
        now rewrite !length_map.
Qed.

Lemma select_loop_length (data : list obs) :
  forall (fs : dict pyval) (keep : list bool) (array : bool)
         (m : list bool * bool),
  select_loop re_compile data fs keep array = Ok m ->
  length keep = length data -> length (fst m) = length data.
Proof.
  induction fs as [|[c v] fs IH]; intros keep array m; simpl.
  - intros H Hl. inversion H. now subst.
  - destruct (keep_entry re_compile data c v) as [kc|e] eqn:He; simpl;
      [|discriminate].
    destruct (array && entry_is_array c v && is_empty keep); [discriminate|].
    intros H Hl. apply (IH _ _ _ H). apply keep_entry_length in He.
    rewrite length_mask_and; lia.
Qed.

Lemma select_loop_kept (data : list obs) :
  forall (fs : dict pyval) (keep : list bool) (array : bool)
         (m : list bool * bool),
  select_loop re_compile data fs keep array = Ok m ->
  forall i,
    kept (fst m) i <->
    kept keep i
    /\ forall c v, In (c, v) fs ->
         exists mc, keep_entry re_compile data c v = Ok mc /\ kept mc i.
Proof.
  induction fs as [|[c0 v0] fs IH]; intros keep array m; simpl.
  - intros H i. inversion H; subst. simpl. split; [|tauto].
    intros Hk. split; [exact Hk|]. intros c v [].
  - destruct (keep_entry re_compile data c0 v0) as [kc|e] eqn:He; simpl;
      [|discriminate].
    destruct (array && entry_is_array c0 v0 && is_empty keep);
      [discriminate|].
    intros H i. rewrite (IH _ _ _ H i), kept_mask_and. split.
    + intros [[Hk Hc] Hrest]. split; [exact Hk|].
      intros c v [Heq | Hin].
      * inversion Heq; subst. now exists kc.
      * now apply Hrest.
    + intros [Hk Hall]. split; [split; [exact Hk|]|].
      * destruct (Hall c0 v0 (or_introl eq_refl)) as (mc & Hmc & Hkc).
        congruence.
      * intros c v Hin. apply Hall. now right.
Qed.

(** The loop succeeds when every entry gives a mask, unless the first
    entry meets an array of floats with another. *)
Lemma select_loop_ok (data : list obs) :
  forall (fs : dict pyval) (keep : list bool) (array : bool),
  length keep = length data ->
  ((exists m, select_loop re_compile data fs keep array = Ok m) <->
   (forall c v, In (c, v) fs ->
      exists mc, keep_entry re_compile data c v = Ok mc)
   /\ array && is_empty keep && first_is_array fs = false).
Proof.
  induction fs as [|[c0 v0] fs IH]; intros keep array Hlen; simpl.
  - rewrite andb_false_r. split; [|intros _; now eexists].
    intros _. split; [intros c v [] | reflexivity].
  - destruct (keep_entry re_compile data c0 v0) as [kc|e] eqn:He; simpl.
    + pose proof (keep_entry_length _ _ _ _ He) as Hkc.
      destruct (array && entry_is_array c0 v0 && is_empty keep) eqn:Hraise.
      * split; [intros [m Hm]; discriminate|].
        intros [_ Hno]. exfalso.
        destruct array, (entry_is_array c0 v0), (is_empty keep);
          simpl in *; discriminate.
      * rewrite IH by (rewrite length_mask_and; lia).
        assert (Hnext : (array && entry_is_array c0 v0)
                        && is_empty (mask_and keep kc)
                        && first_is_array fs = false).
        { destruct array, (entry_is_array c0 v0); try reflexivity.
          simpl in Hraise. destruct keep as [|b keep]; [discriminate|].
          destruct kc as [|b' kc]; [simpl in *; lia|]. reflexivity. }
        assert (Hhere : array && is_empty keep && entry_is_array c0 v0
                        = false).
        { destruct array, (entry_is_array c0 v0), (is_empty keep);
            simpl in *; congruence. }
        split.
        -- intros [H _]. split; [|exact Hhere].
           intros c v [Heq | Hin]; [|now apply H].
           inversion Heq; subst. now exists kc.
        -- intros [H _]. split; [|exact Hnext].
           intros c v Hin. apply H. now right.
    + split.
      * intros [m Hm]. discriminate.
      * intros [H _]. destruct (H c0 v0 (or_introl eq_refl)) as [mc Hmc].
        congruence.
Qed.

Lemma select_loop_app (data : list obs) (gs : dict pyval) :
  forall (fs : dict pyval) (keep : list bool) (array : bool),
  select_loop re_compile data (fs ++ gs) keep array
  = (m <- select_loop re_compile data fs keep array ;;
     select_loop re_compile data gs (fst m) (snd m)).
Proof.
  induction fs as [|[c v] fs IH]; intros keep array; simpl; [reflexivity|].
  destruct (keep_entry re_compile data c v) as [kc|e]; simpl;
    [|reflexivity].
  destruct (array && entry_is_array c v && is_empty keep);
    [reflexivity | apply IH].
Qed.

(** X2. [select] keeps a row exactly when every entry of the filter
    dictionary keeps it: the entries are and-ed, and an empty dictionary
    keeps every row. It builds its mask exactly when every entry gives
    one, but for a store without rows whose first entry is an empty
    collection on a name or variable axis: there the two arrays it ands
    are arrays of floats, and it raises. *)
Theorem select_mask_conjunction (data : list obs) (fs : dict pyval) :
  ((exists m, select_mask re_compile data fs = Ok m) <->
   (forall c v, In (c, v) fs ->
      exists mc, keep_entry re_compile data c v = Ok mc)
   /\ (data = [] -> first_is_array fs = false))
  /\ forall m, select_mask re_compile data fs = Ok m ->
       length m = length data
       /\ forall i, (i < length data)%nat ->
            (kept m i <->
             forall c v, In (c, v) fs ->
               exists mc, keep_entry re_compile data c v = Ok mc
                          /\ kept mc i).
Proof.
  unfold select_mask. split.
  - pose proof (select_loop_ok data fs (map (fun _ => true) data) true
                  (length_map _ data)) as Hok.
    assert (Hsame : (exists m,
                       (keep <- select_loop re_compile data fs
                                  (map (fun _ => true) data) true ;;
                        Ok (fst keep)) = Ok m)
                    <-> exists m,
                          select_loop re_compile data fs
                            (map (fun _ => true) data) true = Ok m).
    { destruct (select_loop re_compile data fs (map (fun _ => true) data)
                            true) as [km|e]; simpl.
      - split; intros _; eexists; reflexivity.
      - split; intros [m Hm]; discriminate. }
    rewrite Hsame, Hok. simpl.
    destruct data as [|o data]; simpl.
    + split; intros [H1 H2]; (split; [exact H1|]); [intros _; exact H2|].
      now apply H2.
    + split; intros [H1 _]; (split; [exact H1|]);
        [intros H; discriminate | reflexivity].
  - intros m Hm.
    destruct (select_loop re_compile data fs (map (fun _ => true) data) true)
      as [km|e] eqn:Hloop; simpl in Hm; [|discriminate].
    inversion Hm; subst m. split.
    + apply (select_loop_length data fs _ _ km Hloop). apply length_map.
    + intros i Hi. rewrite (select_loop_kept data fs _ _ km Hloop i).
      rewrite kept_all_true. tauto.
Qed.

(** X3. The rows [select] returns are rows of the data, and a
    dictionary with more entries returns no row that the dictionary
    without them does not return: when [select] succeeds on [fs ++ gs] it
    succeeds on [fs], with at least these rows. *)
Theorem select_rows_narrow (data : list obs) (fs gs : dict pyval)
    (rows : list obs) :
  select_rows re_compile data (fs ++ gs) = Ok rows ->
  incl rows data
  /\ exists wider,
       select_rows re_compile data fs = Ok wider
       /\ incl rows wider /\ (length rows <= length wider)%nat.
Proof.
  unfold select_rows, select_mask. rewrite select_loop_app.
  destruct (select_loop re_compile data fs (map (fun _ => true) data) true)
    as [m1|e] eqn:H1; simpl; [|discriminate].
  destruct (select_loop re_compile data gs (fst m1) (snd m1)) as [m2|e]
    eqn:H2; simpl; [|discriminate].
  intros H. inversion H; subst rows. split; [apply mask_select_in|].
  exists (mask_select (fst m1) data). split; [reflexivity|].
  apply mask_select_narrow. intros i Hk.
  now apply (select_loop_kept data gs (fst m1) (snd m1) m2 H2 i).
Qed.

(** The loop of [keep_col_match] over strings that all compile. *)
Lemma match_loop_union (col : list string) (pr : bool) :
  forall (ss : list string) (ps : list (string -> bool))
         (g : string -> bool),
  Forall2 (fun s p => re_compile (if pr then pseudo_regex_of s else s) = Ok p)
          ss ps ->
  match_loop re_compile col pr (map EStr ss) (map g col)
  = Ok (map (fun v => g v || existsb (fun p => p v) ps) col).
Proof.
  intros ss ps g H. revert g.
  induction H as [|s p ss ps Hs Hrest IH]; intros g; simpl.
  - f_equal. apply map_ext. intros v. now rewrite orb_false_r.
  - rewrite Hs. simpl. rewrite isin_filter.
    assert (Hor : mask_or (map g col) (map p col)
                  = map (fun v => g v || p v) col).
    { unfold mask_or. clear. induction col as [|v col IH]; simpl;
        [reflexivity|]. now rewrite IH. }
    rewrite Hor, IH. f_equal. apply map_ext. intros v.
    now rewrite orb_assoc.
Qed.

(** X4. With a list of pattern strings that all compile,
    [keep_col_match] keeps a row exactly when one of the patterns matches
    its value: the patterns are or-ed. *)
Theorem keep_col_match_union (col : list string) (pr : bool)
    (ss : list string) (ps : list (string -> bool)) :
  Forall2 (fun s p => re_compile (if pr then pseudo_regex_of s else s) = Ok p)
          ss ps ->
  keep_col_match re_compile col (PList (map EStr ss)) pr
  = Ok (map (fun v => existsb (fun p => p v) ps) col).
Proof.
  intros H. unfold keep_col_match. simpl.
  now rewrite (match_loop_union col pr ss ps (fun _ => false) H).
Qed.

End SelectCombination.

(** ** Patterns of plain text: wildcard and name filters *)

Lemma string_app_assoc (a b c : string) :
  ((a ++ b) ++ c = a ++ (b ++ c))%string.
Proof. induction a as [|x a IH]; simpl; [reflexivity|]. now rewrite IH. Qed.

Lemma str_replace_app (c : ascii) (by_ s t : string) :
  (str_replace c by_ (s ++ t)
   = str_replace c by_ s ++ str_replace c by_ t)%string.
Proof.
  induction s as [|a s IH]; simpl; [reflexivity|].
  destruct (Ascii.eqb a c); rewrite IH; [|reflexivity].
  now rewrite string_app_assoc.
Qed.

Lemma tokens_literal (s rest : string) :
  literal s = true ->
  PyRe.tokens (s ++ rest)
  = option_map (app (literal_tokens s)) (PyRe.tokens rest).
Proof.
  induction s as [|c s IH]; intros Hl.
  - simpl. now destruct (PyRe.tokens rest).
  - simpl in Hl. apply andb_true_iff in Hl. destruct Hl as [Hc Hs].
    apply negb_true_iff in Hc.
    destruct (not_special c Hc) as (Hdot & Hend & Hstar & Hesc & _).
    cbn [append PyRe.tokens literal_tokens].
    rewrite Hesc, Hdot, Hend, Hstar, Hc, (IH Hs).
    now destruct (PyRe.tokens rest).
Qed.

Lemma items_literal_then (ts : list PyRe.token) (s : string) :
  match ts with
  | PyRe.TStar :: _ => False
  | _ => True
  end ->
  PyRe.items (literal_tokens s ++ ts)
  = option_map (app (literal_items s)) (PyRe.items ts).
Proof.
  intros Hts. induction s as [|c s IH].
  - simpl. now destruct (PyRe.items ts).
  - cbn [literal_tokens literal_items app].
    assert (Hhead : PyRe.items (PyRe.TLit c :: literal_tokens s ++ ts)
                    = option_map (cons (PyRe.One (PyRe.Lit c)))
                        (PyRe.items (literal_tokens s ++ ts))).
    { destruct s as [|d s]; [|reflexivity].
      simpl. destruct ts as [|[] ts]; try reflexivity. destruct Hts. }
    rewrite Hhead, IH. now destruct (PyRe.items ts).
Qed.

Lemma matches_literal_prefix (s v : string) :
  PyRe.matches (literal_items s) v = String.prefix s v.
Proof.
  revert v; induction s as [|a s IH]; intros v.
  - now destruct v.
  - destruct v as [|c v]; [reflexivity|].
    cbn [literal_items PyRe.matches PyRe.atom_ok String.prefix].
    rewrite IH. destruct (ascii_dec a c) as [->|Hne].
    + now rewrite Ascii.eqb_refl.
    + destruct (Ascii.eqb c a) eqn:He; [|reflexivity].
      apply Ascii.eqb_eq in He. congruence.
Qed.

Lemma matches_any_end (v : string) :
  no_line_feed v = true ->
  PyRe.matches [PyRe.Many PyRe.Any; PyRe.End_] v = true.
Proof.
  induction v as [|c v IH]; intros H; [reflexivity|].
  simpl in H. apply andb_true_iff in H. destruct H as [Hc Hv].
  specialize (IH Hv). cbn in IH. cbn. rewrite Hc. cbn.
  rewrite IH. apply orb_true_r.
Qed.

Lemma matches_literal_any (s v : string) :
  no_line_feed v = true ->
  PyRe.matches (literal_items s ++ [PyRe.Many PyRe.Any; PyRe.End_]) v
  = String.prefix s v.
Proof.
  revert v; induction s as [|a s IH]; intros v Hv.
  - cbn [literal_items app]. rewrite matches_any_end by exact Hv.
    now destruct v.
  - destruct v as [|c v]; [reflexivity|].
    simpl in Hv. apply andb_true_iff in Hv. destruct Hv as [_ Hv].
    cbn [literal_items app PyRe.matches PyRe.atom_ok String.prefix].
    rewrite (IH v Hv). destruct (ascii_dec a c) as [->|Hne].
    + now rewrite Ascii.eqb_refl.
    + destruct (Ascii.eqb c a) eqn:He; [|reflexivity].
      apply Ascii.eqb_eq in He. congruence.
Qed.

Lemma compile_wildcard (p : string) :
  plain p = true ->
  PyRe.compile (pseudo_regex_of (p ++ "*"))
  = Ok (PyRe.matches (literal_items p ++ [PyRe.Many PyRe.Any; PyRe.End_])).
Proof.
  intros Hp. unfold PyRe.compile, pseudo_regex_of.
  rewrite !str_replace_app.
  change (str_replace "*" ".*" (str_replace "|" "\|" "*"))
    with ".*"%string.
  rewrite string_app_assoc, tokens_plain by exact Hp.
  change (PyRe.tokens (".*" ++ "$"))
    with (Some [PyRe.TAny; PyRe.TStar; PyRe.TEnd]).
  cbv beta iota delta [option_map].
  now rewrite (items_literal_then
                 [PyRe.TAny; PyRe.TStar; PyRe.TEnd] p I).
Qed.

(** X5. A variable filter that is plain text and a star at its end
    keeps the variables that start with the text (among variables without a
    line feed): ["Emissions*"] keeps ["Emissions"] and ["Emissions|CO2"]. *)
Theorem wildcard_filter_prefix (p : string) (col : list string) :
  plain p = true ->
  (forall v, In v col -> no_line_feed v = true) ->
  keep_col_match PyRe.compile col (PStr (p ++ "*")) true
  = Ok (map (String.prefix p) col).
Proof.
  intros Hp Hcol.
  rewrite (keep_col_match_one PyRe.compile col (p ++ "*") true _
             (compile_wildcard p Hp)).
  f_equal. apply map_ext_in. intros v Hv.
  apply matches_literal_any. now apply Hcol.
Qed.

Lemma wildcard_filter_prefix_witness :
  keep_col_match PyRe.compile
    ["Emissions"; "Emissions|CO2"; "Primary Energy"]%string
    (PStr "Emissions*") true
  = Ok [true; true; false].
Proof.
  apply (wildcard_filter_prefix "Emissions"
           ["Emissions"; "Emissions|CO2"; "Primary Energy"]%string).
  - reflexivity.
  - intros v [<- | [<- | [<- | []]]]; reflexivity.
Defined.

(** X6. On the model, scenario and region axes the filter string is
    compiled as it is and matched from the start of the name, with no
    anchor at the end: a filter of literal text keeps every name that
    starts with it, so ["m1"] keeps ["m1"] and ["m10"]. *)
Theorem name_filter_prefix (s : string) (col : list string)
    (data : list obs) :
  literal s = true ->
  keep_col_match PyRe.compile col (PStr s) false
  = Ok (map (String.prefix s) col)
  /\ keep_entry PyRe.compile data "model" (PStr s)
     = Ok (map (fun o => String.prefix s (model o)) data)
  /\ keep_entry PyRe.compile data "scenario" (PStr s)
     = Ok (map (fun o => String.prefix s (scenario o)) data)
  /\ keep_entry PyRe.compile data "region" (PStr s)
     = Ok (map (fun o => String.prefix s (region o)) data).
Proof.
  intros Hl.
  assert (Hc : PyRe.compile s = Ok (PyRe.matches (literal_items s))).
  { unfold PyRe.compile.
    assert (Ht : PyRe.tokens s = Some (literal_tokens s)).
    { pose proof (tokens_literal s "" Hl) as H. simpl in H.
      assert (Hs : (s ++ "")%string = s).
      { clear. induction s as [|c s IH]; simpl; congruence. }
      rewrite Hs, app_nil_r in H. exact H. }
    rewrite Ht.
    pose proof (items_literal_then [] s I) as Hi. simpl in Hi.
    rewrite !app_nil_r in Hi. now rewrite Hi. }
  assert (Hk : forall c, keep_col_match PyRe.compile c (PStr s) false
                         = Ok (map (String.prefix s) c)).
  { intros c. rewrite (keep_col_match_one PyRe.compile c s false _ Hc).
    f_equal. apply map_ext. intros v. apply matches_literal_prefix. }
  repeat split; [apply Hk| | |];
    unfold keep_entry, name_column; simpl; rewrite Hk; now rewrite map_map.
Qed.

Lemma name_filter_prefix_witness :
  keep_col_match PyRe.compile ["m1"; "m10"; "m2"]%string (PStr "m1") false
  = Ok [true; true; false].
Proof.
  apply (name_filter_prefix "m1" ["m1"; "m10"; "m2"]%string []).
  reflexivity.
Defined.

(** ** check: the rows that fail *)

Lemma Qle_bool_false (x y : Q) : Qle_bool x y = false <-> (y < x)%Q.
Proof.
  split.
  - intros H. apply Qnot_le_lt. intros Hle.
    apply Qle_bool_iff in Hle. congruence.
  - intros H. destruct (Qle_bool x y) eqn:He; [|reflexivity].
    apply Qle_bool_iff in He. exfalso. exact (Qlt_not_le _ _ H He).
Qed.

Lemma Qgt_bool_false (x y : Q) : Qgt_bool x y = false <-> (x <= y)%Q.
Proof.
  split.
  - intros H. apply Qnot_lt_le. intros Hlt.
    apply Qgt_bool_iff in Hlt. congruence.
  - intros H. destruct (Qgt_bool x y) eqn:He; [|reflexivity].
    apply Qgt_bool_iff in He. exfalso. exact (Qlt_not_le _ _ He H).
Qed.

Lemma row_flag_false (chk : check_spec) (o : obs) :
  row_flag chk o = false <->
  (exists U, chk_up chk = Some U /\ (U < value o)%Q)
  \/ (exists L, chk_lo chk = Some L /\ (value o <= L)%Q).
Proof.
  unfold row_flag. rewrite andb_false_iff.
  assert (Hu : match chk_up chk with
               | Some val => Qle_bool (value o) val
               | None => true
               end = false
               <-> exists U, chk_up chk = Some U /\ (U < value o)%Q).
  { destruct (chk_up chk) as [u|].
    - rewrite Qle_bool_false. split.
      + intros H. now exists u.
      + intros (U & HU & H). inversion HU. now subst.
    - split; [discriminate|]. intros (U & HU & _). discriminate. }
  assert (Hl : match chk_lo chk with
               | Some val => Qgt_bool (value o) val
               | None => true
               end = false
               <-> exists L, chk_lo chk = Some L /\ (value o <= L)%Q).
  { destruct (chk_lo chk) as [l|].
    - rewrite Qgt_bool_false. split.
      + intros H. now exists l.
      + intros (L & HL & H). inversion HL. now subst.
    - split; [discriminate|]. intros (L & HL & _). discriminate. }
  now rewrite Hu, Hl.
Qed.

Lemma length_filter_split (A : Type) (p : A -> bool) (l : list A) :
  (length (filter p l) + length (filter (fun x => negb (p x)) l)
   = length l)%nat.
Proof.
  induction l as [|x l IH]; simpl; [reflexivity|].
  destruct (p x); simpl; lia.
Qed.

Lemma no_bounds_iff (chk : check_spec) :
  no_bounds chk = true <-> chk_up chk = None /\ chk_lo chk = None.
Proof.
  unfold no_bounds. destruct (chk_up chk), (chk_lo chk); split;
    try discriminate; try tauto; intros [? ?]; discriminate.
Qed.

Lemma check_frame_failing (chk : check_spec) (df : list obs) :
  check_frame chk false df
  = if is_empty df && no_bounds chk then Raise TypeError
    else Ok (Failing (filter (fun o => negb (row_flag chk o)) df)).
Proof.
  unfold check_frame. rewrite is_true_rows, map_map.
  now rewrite mask_select_map.
Qed.

(** X7. With [ret_true] false, [check] returns the rows of the
    selection that break a bound: those above the upper bound or not above
    the lower bound. Rows that pass and rows that fail are all the rows of
    the selection, each once; a check without bounds fails no row. This is
    so when the selection has a row or the check has a bound: with neither,
    [is_true] is an array of floats and [check] raises. *)
Theorem check_failing_rows (chk : check_spec) (df : list obs) :
  (df = [] -> chk_up chk = None -> chk_lo chk = None ->
   check_frame chk false df = Raise TypeError)
  /\ (df <> [] \/ chk_up chk <> None \/ chk_lo chk <> None ->
      exists rows,
        check_frame chk false df = Ok (Failing rows)
        /\ (forall o, In o rows <->
              In o df
              /\ ((exists U, chk_up chk = Some U /\ (U < value o)%Q)
                  \/ (exists L, chk_lo chk = Some L /\ (value o <= L)%Q)))
        /\ (length (satisfying chk df) + length rows = length df)%nat
        /\ (chk_up chk = None -> chk_lo chk = None -> rows = [])).
Proof.
  rewrite check_frame_failing. split.
  - intros -> Hu Hl.
    now rewrite (proj2 (no_bounds_iff chk) (conj Hu Hl)).
  - intros Hsome.
    assert (Hno : is_empty df && no_bounds chk = false).
    { destruct df as [|o df]; [|reflexivity]. simpl.
      destruct (no_bounds chk) eqn:Hb; [|reflexivity].
      apply no_bounds_iff in Hb. destruct Hb as [Hu Hl].
      destruct Hsome as [H | [H | H]]; congruence. }
    rewrite Hno.
    exists (filter (fun o => negb (row_flag chk o)) df).
    split; [reflexivity|]. split; [|split].
    + intros o. rewrite filter_In, negb_true_iff, row_flag_false. tauto.
    + rewrite satisfying_rows, length_map. apply length_filter_split.
    + intros Hu Hl. apply filter_none. intros o. unfold row_flag.
      now rewrite Hu, Hl.
Qed.

Lemma check_failing_rows_witness :
  check_frame (CheckSpec None None None) false [] = Raise TypeError
  /\ exists rows,
       check_frame (CheckSpec None None None) false two_years
       = Ok (Failing rows)
       /\ rows = [].
Proof.
  destruct (check_failing_rows (CheckSpec None None None) [])
    as [Hraise _].
  destruct (check_failing_rows (CheckSpec None None None) two_years)
    as [_ Hrows].
  split; [now apply Hraise|].
  destruct Hrows as (rows & Hf & _ & _ & Hnone); [left; discriminate|].
  exists rows. split; [exact Hf|]. now apply Hnone.
Defined.

(** ** check: the dictionary it selects with *)

Lemma dict_get_set_same (V : Type) (d : dict V) (k : string) (v : V) :
  dict_get (dict_set d k v) k = Some v.
Proof.
  induction d as [|[k' v'] d IH]; simpl.
  - now rewrite String.eqb_refl.
  - destruct (String.eqb k' k) eqn:He; simpl; now rewrite He.
Qed.

Lemma dict_get_set_other (V : Type) (d : dict V) (k k' : string) (v : V) :
  k' <> k -> dict_get (dict_set d k v) k' = dict_get d k'.
Proof.
  intros Hne. induction d as [|[k0 v0] d IH]; simpl.
  - destruct (String.eqb k k') eqn:He; [|reflexivity].
    apply String.eqb_eq in He. congruence.
  - destruct (String.eqb k0 k) eqn:He; simpl.
    + apply String.eqb_eq in He. subst k0.
      destruct (String.eqb k k') eqn:He'; [|reflexivity].
      apply String.eqb_eq in He'. congruence.
    + now rewrite IH.
Qed.

Lemma dict_get_in (V : Type) (d : dict V) (k : string) (v : V) :
  dict_get d k = Some v -> In (k, v) d.
Proof.
  induction d as [|[k' v'] d IH]; simpl; [discriminate|].
  destruct (String.eqb k' k) eqn:He.
  - apply String.eqb_eq in He. intros H. inversion H. subst. now left.
  - intros H. right. now apply IH.
Qed.

Lemma heap_get_set_same (h : heap) (r : ref) (d : dict pyval) :
  (r < length h)%nat -> heap_get (heap_set h r d) r = d.
Proof.
  unfold heap_get. revert r. induction h as [|x h IH]; intros [|r] Hr;
    simpl in *; try lia; [reflexivity|]. apply IH. lia.
Qed.

Lemma heap_get_set_other (h : heap) (r r' : ref) (d : dict pyval) :
  r' <> r -> heap_get (heap_set h r d) r' = heap_get h r'.
Proof.
  unfold heap_get. revert r r'.
  induction h as [|x h IH]; intros r r' Hne; [now destruct r|].
  destruct r as [|r], r' as [|r']; simpl; try reflexivity; try congruence.
  apply IH. congruence.
Qed.

Lemma length_heap_set (h : heap) (r : ref) (d : dict pyval) :
  length (heap_set h r d) = length h.
Proof.
  revert r. induction h as [|x h IH]; intros [|r]; simpl; auto.
Qed.

Lemma heap_get_nonempty (h : heap) (r : ref) :
  is_empty (heap_get h r) = false -> (r < length h)%nat.
Proof.
  unfold heap_get. intros H.
  destruct (Nat.lt_ge_cases r (length h)) as [Hlt | Hge]; [exact Hlt|].
  rewrite nth_overflow in H by exact Hge. discriminate.
Qed.

(** The dictionary the caller gave, when [check] keeps it. *)
Lemma check_filters_given (variable : string) (chk : check_spec) (r : ref)
    (h : heap) :
  is_empty (heap_get h r) = false ->
  check_filters variable chk (Some r) h
  = (r,
     heap_set h r
       (dict_set
          match chk_year chk with
          | Some yrs => dict_set (heap_get h r) "year" yrs
          | None => heap_get h r
          end
          "variable" (PStr variable))).
Proof.
  intros Hne. pose proof (heap_get_nonempty h r Hne) as Hr.
  unfold check_filters. rewrite Hne. unfold store.
  destruct (chk_year chk) as [yrs|]; [|reflexivity].
  rewrite heap_get_set_same by exact Hr. f_equal.
  clear Hne. revert r Hr. induction h as [|x h IH]; intros [|r] Hr;
    simpl in *; try lia; [reflexivity|]. f_equal.
  apply (IH r). lia.
Qed.

(** The dictionary [check] selects with, from the one it was given. *)
Lemma check_filters_dict (variable : string) (chk : check_spec)
    (filters : option ref) (h : heap) :
  heap_get (snd (check_filters variable chk filters h))
           (fst (check_filters variable chk filters h))
  = dict_set
      match chk_year chk with
      | Some yrs =>
          dict_set match filters with
                   | Some r => heap_get h r
                   | None => []
                   end "year" yrs
      | None => match filters with
                | Some r => heap_get h r
                | None => []
                end
      end
      "variable" (PStr variable).
Proof.
  destruct filters as [r|].
  - destruct (is_empty (heap_get h r)) eqn:He.
    + assert (Hd : heap_get h r = []) by now destruct (heap_get h r).
      rewrite check_filters_fresh by exact Hd. simpl.
      now rewrite heap_get_last, Hd.
    + rewrite check_filters_given by exact He. simpl.
      apply heap_get_set_same. now apply heap_get_nonempty.
  - rewrite check_filters_fresh by exact I. simpl.
    now rewrite heap_get_last.
Qed.

(** X10. [check] selects with the caller's filters in which the
    variable is the one to check and the year is the year of the check, if
    the check has one; a year the caller gave stays when the check has
    none, and so does every other entry. *)
Theorem check_replaces_variable_and_year
    (re_compile : string -> result (string -> bool)) (data : list obs)
    (variable : string) (chk : check_spec) (filters : option ref)
    (ret_true : bool) (h : heap) :
  exists used : dict pyval,
    fst (check re_compile data variable chk filters ret_true h)
    = (df <- select_rows re_compile data used ;;
       check_frame chk ret_true df)
    /\ dict_get used "variable" = Some (PStr variable)
    /\ (forall yrs, chk_year chk = Some yrs ->
                    dict_get used "year" = Some yrs)
    /\ forall k, k <> "variable"%string ->
                 (k <> "year"%string \/ chk_year chk = None) ->
                 dict_get used k
                 = match filters with
                   | Some r => dict_get (heap_get h r) k
                   | None => None
                   end.
Proof.
  exists (heap_get (snd (check_filters variable chk filters h))
                   (fst (check_filters variable chk filters h))).
  split; [|rewrite check_filters_dict; split; [|split]].
  - unfold check.
    now destruct (check_filters variable chk filters h) as [r h'].
  - apply dict_get_set_same.
  - intros yrs Hy. rewrite Hy.
    rewrite dict_get_set_other by discriminate. apply dict_get_set_same.
  - intros k Hv Hy. rewrite dict_get_set_other by exact Hv.
    assert (Hnone : dict_get match filters with
                             | Some r => heap_get h r
                             | None => []
                             end k
                    = match filters with
                      | Some r => dict_get (heap_get h r) k
                      | None => None
                      end) by now destruct filters.
    destruct (chk_year chk) as [yrs|]; [|exact Hnone].
    destruct Hy as [Hy | Hy]; [|discriminate].
    now rewrite dict_get_set_other by exact Hy.
Qed.

(** ** check for one year *)

Lemma mask_select_nth (A : Type) (rows : list A) (x : A) :
  forall m : list bool,
  In x (mask_select m rows) ->
  exists i, nth_error rows i = Some x /\ kept m i.
Proof.
  unfold mask_select, kept.
  induction rows as [|y rows IH]; intros [|b m]; simpl; try now intros [].
  destruct b; simpl.
  - intros [<- | Hin]; [now exists O|].
    destruct (IH m Hin) as (i & Hi & Hk). now exists (S i).
  - intros Hin. destruct (IH m Hin) as (i & Hi & Hk). now exists (S i).
Qed.

Lemma key_year_eqb_eq (a b : key * Z) : key_year_eqb a b = true <-> a = b.
Proof.
  destruct a as [ka ya], b as [kb yb]. unfold key_year_eqb. simpl.
  rewrite andb_true_iff, key_eqb_eq, Z.eqb_eq. split.
  - now intros [-> ->].
  - intros H. inversion H. now split.
Qed.

(** The rows [select] keeps under a dictionary with a year that is an
    integer. *)
Lemma select_rows_year (re_compile : string -> result (string -> bool))
    (data : list obs) (fs : dict pyval) (n : Z) (df : list obs) :
  In ("year"%string, PInt n) fs ->
  select_rows re_compile data fs = Ok df ->
  forall o, In o df -> In o data /\ year o = n.
Proof.
  intros Hy Hsel o Ho. unfold select_rows, select_mask in Hsel.
  destruct (select_loop re_compile data fs (map (fun _ => true) data) true)
    as [m|e] eqn:Hm; simpl in Hsel; [|discriminate].
  inversion Hsel; subst df.
  split; [now apply (mask_select_in _ (fst m) data)|].
  destruct (mask_select_nth _ data o (fst m) Ho) as (i & Hi & Hk).
  apply (select_loop_kept re_compile data fs _ _ m Hm i) in Hk.
  destruct Hk as [_ Hk]. destruct (Hk _ _ Hy) as (mc & Hmc & Hki).
  unfold keep_entry in Hmc. simpl in Hmc. inversion Hmc; subst mc.
  unfold kept in Hki. rewrite !nth_error_map, Hi in Hki. simpl in Hki.
  inversion Hki as [Heq]. now apply Z.eqb_eq in Heq.
Qed.

(** X8. A check with one integer year [n], in satisfying mode. The
    selection it makes ([select] on the dictionary the first statements of
    [check] leave) has rows of the data, all of year [n]; [check] raises
    when [select] does, and else returns every entity at most once, with
    the year [n]: the entities that have a row in this selection that
    satisfies the bounds. *)
Theorem check_single_year (re_compile : string -> result (string -> bool))
    (data : list obs) (variable : string) (chk : check_spec)
    (filters : option ref) (h : heap) (n : Z) :
  chk_year chk = Some (PInt n) ->
  match select_rows re_compile data
          (heap_get (snd (check_filters variable chk filters h))
                    (fst (check_filters variable chk filters h))) with
  | Raise e =>
      fst (check re_compile data variable chk filters true h) = Raise e
  | Ok df =>
      (forall o, In o df -> In o data /\ year o = n)
      /\ exists rows,
           fst (check re_compile data variable chk filters true h)
           = Ok (ByYear rows)
           /\ NoDup (map fst rows)
           /\ forall k y, In (k, y) rows <->
                y = n /\ exists o, In o df /\ key_of o = k
                                   /\ row_flag chk o = true
  end.
Proof.
  intros Hyr.
  pose proof (check_filters_dict variable chk filters h) as Hd.
  unfold check.
  destruct (check_filters variable chk filters h) as [r0 h0].
  simpl in Hd. simpl. rewrite Hyr in Hd.
  destruct (select_rows re_compile data (heap_get h0 r0)) as [df|e] eqn:Hsel;
    simpl; [|reflexivity].
  assert (Hdf : forall o, In o df -> In o data /\ year o = n).
  { apply (select_rows_year re_compile data (heap_get h0 r0) n df);
      [|exact Hsel].
    apply dict_get_in. rewrite Hd.
    rewrite dict_get_set_other by discriminate. apply dict_get_set_same. }
  assert (Hin : forall k y,
            In (k, y) (drop_duplicates key_year_eqb (satisfying chk df)) <->
            y = n /\ exists o, In o df /\ key_of o = k
                               /\ row_flag chk o = true).
  { intros k y.
    rewrite (drop_duplicates_in _ key_year_eqb key_year_eqb_eq).
    rewrite satisfying_rows, in_map_iff. split.
    - intros (o & Heq & Ho). apply filter_In in Ho. destruct Ho as [Ho Hf].
      inversion Heq; subst. split; [now apply Hdf|]. now exists o.
    - intros (-> & o & Ho & Hk & Hf). exists o. split.
      + f_equal; [exact Hk | now apply Hdf].
      + apply filter_In. now split. }
  split; [exact Hdf|].
  exists (drop_duplicates key_year_eqb (satisfying chk df)).
  split; [|split; [|exact Hin]].
  - unfold check_frame. now rewrite Hyr.
  - apply NoDup_map_on.
    + intros [k1 y1] [k2 y2] H1 H2. simpl. intros ->.
      apply Hin in H1, H2. destruct H1 as [-> _], H2 as [-> _]. reflexivity.
    + apply (drop_duplicates_NoDup _ key_year_eqb key_year_eqb_eq).
Qed.

Lemma check_single_year_witness :
  exists rows,
    fst (check PyRe.compile two_years "V" up_to_10_in_2010 None true [])
    = Ok (ByYear rows)
    /\ NoDup (map fst rows)
    /\ forall k y, In (k, y) rows <->
         y = 2010%Z
         /\ exists o, In o [row "m1" "s1" "r1" "V" 2010 5]
                      /\ key_of o = k
                      /\ row_flag up_to_10_in_2010 o = true.
Proof.
  exact (proj2 (check_single_year PyRe.compile two_years "V"
                  up_to_10_in_2010 None [] 2010 eq_refl)).
Defined.

Lemma check_all_years_one_row_per_year_witness :
  exists index,
    check_frame up_to_10 true two_years = Ok (AllYears index)
    /\ (In m1s1 index <->
        In m1s1 (map key_of two_years)
        /\ length (years_satisfied up_to_10 two_years m1s1)
           = length (years_queried two_years)).
Proof.
  apply (check_all_years_one_row_per_year up_to_10 two_years m1s1).
  - repeat constructor; simpl; intuition discriminate.
  - exact I.
Defined.

(** ** The dictionaries check does not write to *)

Lemma heap_get_app (h : heap) (d : dict pyval) (r : ref) :
  (r < length h)%nat -> heap_get (h ++ [d]) r = heap_get h r.
Proof. intros Hr. unfold heap_get. now rewrite app_nth1. Qed.

Lemma check_filters_frame (variable : string) (chk : check_spec)
    (filters : option ref) (h : heap) (r' : ref) :
  (r' < length h)%nat ->
  (filters = Some r' -> heap_get h r' = []) ->
  (length h <= length (snd (check_filters variable chk filters h)))%nat
  /\ heap_get (snd (check_filters variable chk filters h)) r'
     = heap_get h r'.
Proof.
  intros Hr Hempty.
  assert (Hfresh : match filters with
                   | Some r => heap_get h r = []
                   | None => True
                   end ->
                   (length h
                    <= length (snd (check_filters variable chk filters h)))%nat
                   /\ heap_get (snd (check_filters variable chk filters h)) r'
                      = heap_get h r').
  { intros Hf. rewrite check_filters_fresh by exact Hf. simpl.
    rewrite length_app. split; [lia|]. now apply heap_get_app. }
  destruct filters as [r|]; [|now apply Hfresh].
  destruct (is_empty (heap_get h r)) eqn:He.
  - apply Hfresh. now destruct (heap_get h r).
  - rewrite check_filters_given by exact He. simpl.
    rewrite length_heap_set. split; [lia|].
    apply heap_get_set_other. intros ->.
    rewrite (Hempty eq_refl) in He. discriminate.
Qed.

Section HeapFrame.

Variable re_compile : string -> result (string -> bool).

Lemma check_heap (data : list obs) (variable : string) (chk : check_spec)
    (filters : option ref) (ret_true : bool) (h : heap) :
  snd (check re_compile data variable chk filters ret_true h)
  = snd (check_filters variable chk filters h).
Proof.
  unfold check. now destruct (check_filters variable chk filters h).
Qed.

Lemma category_loop_frame (data : list obs) (filters : option ref)
    (r' : ref) :
  forall (items : dict check_spec) (keys : list key) (h : heap),
  (r' < length h)%nat ->
  (filters = Some r' -> heap_get h r' = []) ->
  (length h
   <= length (snd (category_loop re_compile data items filters keys h)))%nat
  /\ heap_get (snd (category_loop re_compile data items filters keys h)) r'
     = heap_get h r'.
Proof.
  induction items as [|[var chk] rest IH]; intros keys h Hr He;
    cbn [category_loop]; [simpl; split; [lia | reflexivity]|].
  destruct (check_filters_frame var chk filters h r' Hr He) as [Hlen Hget].
  rewrite <- (check_heap data var chk filters true h) in Hlen, Hget.
  destruct (check re_compile data var chk filters true h) as [[res|e] h1];
    simpl in Hlen, Hget; [|simpl; now split].
  destruct (IH (intersection keys (result_index res)) h1) as [Hlen' Hget'].
  - lia.
  - intros Hf. rewrite Hget. now apply He.
  - split; [lia | congruence].
Qed.

Lemma validate_loop_frame (data : list obs) (filters r' : ref) :
  forall (items : dict check_spec) (df : list obs) (h : heap),
  (r' < length h)%nat ->
  (filters = r' -> heap_get h r' = []) ->
  (length h
   <= length (snd (validate_loop re_compile data items filters df h)))%nat
  /\ heap_get (snd (validate_loop re_compile data items filters df h)) r'
     = heap_get h r'.
Proof.
  induction items as [|[var chk] rest IH]; intros df h Hr He;
    cbn [validate_loop]; [simpl; split; [lia | reflexivity]|].
  assert (He' : Some filters = Some r' -> heap_get h r' = []).
  { intros H. inversion H. now apply He. }
  destruct (check_filters_frame var chk (Some filters) h r' Hr He')
    as [Hlen Hget].
  rewrite <- (check_heap data var chk (Some filters) false h) in Hlen, Hget.
  destruct (check re_compile data var chk (Some filters) false h)
    as [[res|e] h1]; simpl in Hlen, Hget; [|simpl; now split].
  destruct res as [rows|index|rows]; try (simpl; now split).
  destruct (IH (df ++ rows)%list h1) as [Hlen' Hget'].
  - lia.
  - intros Hf. rewrite Hget. now apply He.
  - split; [lia | congruence].
Qed.

(** X11. [check], [category] and [validate] write to one dictionary
    that was there before the call at most: the caller's filters, when
    they are not empty. Every other dictionary of the caller is the same
    after the call, and so are filters that are empty (as the default of
    [validate] is): the calls then write to a new dictionary. *)
Theorem other_filters_untouched (data : list obs) (w : world) (r' : ref)
    (filters : option ref) :
  (r' < length (filter_objects w))%nat ->
  (filters = Some r' -> heap_get (filter_objects w) r' = []) ->
  (forall variable chk ret_true,
     heap_get (snd (check re_compile data variable chk filters ret_true
                          (filter_objects w))) r'
     = heap_get (filter_objects w) r')
  /\ (forall name criteria assign display,
        heap_get (filter_objects
                    (snd (category re_compile data name criteria filters
                                   assign display w))) r'
        = heap_get (filter_objects w) r')
  /\ (forall criteria exclude fr,
        filters = Some fr ->
        heap_get (filter_objects
                    (snd (validate re_compile data criteria fr exclude w))) r'
        = heap_get (filter_objects w) r').
Proof.
  intros Hr He. split; [|split].
  - intros variable chk ret_true. rewrite check_heap.
    now apply check_filters_frame.
  - intros name criteria assign display. unfold category.
    destruct (negb (String.eqb name "") && is_empty (truthy criteria));
      [reflexivity|].
    destruct criteria as [c|]; [|reflexivity].
    pose proof (category_loop_frame data filters r' c (map fst (cat w))
                  (filter_objects w) Hr He) as [_ Hget].
    destruct (category_loop re_compile data c filters (map fst (cat w))
                            (filter_objects w)) as [[index|e] h1];
      simpl in Hget; [|exact Hget].
    destruct (is_empty index); [exact Hget|].
    destruct display; exact Hget.
  - intros criteria exclude fr Hfr. unfold validate.
    assert (He' : fr = r' -> heap_get (filter_objects w) r' = []).
    { intros ->. now apply He. }
    pose proof (validate_loop_frame data fr r' criteria []
                  (filter_objects w) Hr He') as [_ Hget].
    destruct (validate_loop re_compile data criteria fr [] (filter_objects w))
      as [[df|e] h1]; simpl in Hget; [|exact Hget].
    destruct (is_empty df); [exact Hget|].
    destruct exclude; exact Hget.
Qed.

End HeapFrame.

Lemma other_filters_untouched_witness :
  heap_get (filter_objects
              (snd (category PyRe.compile two_years "X"
                             (Some [("V"%string, up_to_10_in_2010)]) None
                             true DisplayOther
                             (start two_years [world_only])))) 0%nat
  = world_only.
Proof.
  apply (other_filters_untouched PyRe.compile two_years
           (start two_years [world_only]) 0%nat None).
  - simpl. lia.
  - discriminate.
Defined.

(** ** category: reading, and what an assignment leaves alone *)

Lemma labelled_in (name : string) (t : table) (k : key) :
  In k (labelled name t) <-> In (k, Some name) t.
Proof.
  unfold labelled. rewrite in_map_iff. split.
  - intros ([k' l] & Hk & Hin). simpl in Hk. subst k'.
    apply filter_In in Hin. destruct Hin as [Hin Hl].
    unfold label_is in Hl. simpl in Hl. destruct l as [l|]; [|discriminate].
    apply String.eqb_eq in Hl. now subst.
  - intros Hin. exists (k, Some name). split; [reflexivity|].
    apply filter_In. split; [exact Hin|].
    unfold label_is. simpl. apply String.eqb_refl.
Qed.

Lemma assign_category_other (t : table) (index : list key) (name : string)
    (k : key) (l : option string) :
  ~ In k index ->
  (In (k, l) (assign_category t index name) <-> In (k, l) t).
Proof.
  intros Hk. unfold assign_category. rewrite in_map_iff. split.
  - intros ([k' l'] & Heq & Hin). simpl in Heq.
    destruct (existsb (key_eqb k') index) eqn:He.
    + inversion Heq; subst. apply existsb_key in He. contradiction.
    + now rewrite <- Heq.
  - intros Hin. exists (k, l). split; [|exact Hin]. simpl.
    destruct (existsb (key_eqb k) index) eqn:He; [|reflexivity].
    apply existsb_key in He. contradiction.
Qed.

Lemma read_branch (name : string) :
  name <> ""%string ->
  negb (String.eqb name "") && is_empty (truthy (@None (dict check_spec)))
  = true.
Proof.
  intros Hn. destruct (String.eqb name "") eqn:He; [|reflexivity].
  apply String.eqb_eq in He. contradiction.
Qed.

Section CategoryMore.

Variable re_compile : string -> result (string -> bool).

(** The table after a call with criteria that qualify some key. *)
Lemma category_assigns (data : list obs) (name : string)
    (c : dict check_spec) (filters : option ref) (display : display_style)
    (w : world) (sets : list (list key)) (K : key) :
  c <> [] -> In K (map fst (cat w)) ->
  check_indexes re_compile data c filters (filter_objects w) = Ok sets ->
  (forall s, In s sets -> In K s) ->
  In K (filter (in_all sets) (map fst (cat w)))
  /\ cat (snd (category re_compile data name (Some c) filters true display w))
     = assign_category (cat w) (filter (in_all sets) (map fst (cat w))) name.
Proof.
  intros Hc HK Hs Hall.
  assert (Hin : In K (filter (in_all sets) (map fst (cat w)))).
  { apply filter_In. split; [exact HK|]. now apply in_all_spec. }
  split; [exact Hin|].
  rewrite category_cat, some_criteria by exact Hc.
  rewrite category_loop_sets, Hs. simpl.
  destruct (filter (in_all sets) (map fst (cat w))); [destruct Hin|].
  reflexivity.
Qed.

(** X12. What an assignment writes, a read returns: once
    [category(name, criteria)] has qualified the key K, [category(name)]
    with display ['list'] returns the keys that carry the label [name], K
    among them, and changes nothing. *)
Theorem category_read_back (data : list obs) (name : string)
    (c : dict check_spec) (filters filters' : option ref) (assign' : bool)
    (display : display_style) (w : world) (sets : list (list key))
    (K : key) :
  name <> ""%string -> c <> [] -> In K (map fst (cat w)) ->
  check_indexes re_compile data c filters (filter_objects w) = Ok sets ->
  (forall s, In s sets -> In K s) ->
  let w1 :=
    snd (category re_compile data name (Some c) filters true display w) in
  exists l,
    category re_compile data name None filters' assign' DisplayList w1
    = (Ok (ListView l), w1)
    /\ In K l
    /\ forall k, In k l <-> In (k, Some name) (cat w1).
Proof.
  intros Hn Hc HK Hs Hall w1.
  exists (labelled name (cat w1)). split; [|split].
  - unfold category. now rewrite read_branch by exact Hn.
  - apply labelled_in.
    destruct (category_assigns data name c filters display w sets K
                Hc HK Hs Hall) as [Hin Hcat].
    unfold w1. rewrite Hcat. now apply assign_category_label.
  - intros k. apply labelled_in.
Qed.

(** X13. [category] never adds or removes a row of the assignment
    table, whatever its arguments and also when it raises; and it leaves
    the label of every key that is not in the index of every check. *)
Theorem category_leaves_other_keys (data : list obs) (name : string)
    (criteria : option (dict check_spec)) (filters : option ref)
    (assign : bool) (display : display_style) (w : world) :
  let w' :=
    snd (category re_compile data name criteria filters assign display w) in
  map fst (cat w') = map fst (cat w)
  /\ forall c sets K l,
       criteria = Some c ->
       check_indexes re_compile data c filters (filter_objects w) = Ok sets ->
       in_all sets K = false ->
       (In (K, l) (cat w') <-> In (K, l) (cat w)).
Proof.
  intros w'. split; [apply category_keys|].
  intros c sets K l -> Hs HK. unfold w'. rewrite category_cat.
  destruct (negb (String.eqb name "") && is_empty (truthy (Some c)));
    [tauto|].
  rewrite category_loop_sets, Hs. simpl.
  destruct (is_empty (filter (in_all sets) (map fst (cat w))) || negb assign);
    [tauto|].
  apply assign_category_other. intros Hin. apply filter_In in Hin.
  destruct Hin as [_ Hin]. congruence.
Qed.

(** X14. With [assign] false [category] is display only: the
    assignment table is the same after the call, and with display ['list']
    the call still returns the qualifying keys. *)
Theorem category_display_only (data : list obs) (name : string)
    (criteria : option (dict check_spec)) (filters : option ref)
    (display : display_style) (w : world) :
  cat (snd (category re_compile data name criteria filters false display w))
  = cat w
  /\ forall c sets,
       criteria = Some c -> c <> [] ->
       check_indexes re_compile data c filters (filter_objects w) = Ok sets ->
       filter (in_all sets) (map fst (cat w)) <> [] ->
       fst (category re_compile data name criteria filters false
                     DisplayList w)
       = Ok (ListView (filter (in_all sets) (map fst (cat w)))).
Proof.
  split.
  - rewrite category_cat.
    destruct (negb (String.eqb name "") && is_empty (truthy criteria));
      [reflexivity|].
    destruct criteria as [c|]; [|reflexivity].
    destruct (fst (category_loop re_compile data c filters (map fst (cat w))
                                 (filter_objects w))) as [index|e];
      [|reflexivity].
    now rewrite orb_true_r.
  - intros c sets -> Hc Hs Hne. unfold category.
    rewrite some_criteria by exact Hc.
    pose proof (category_loop_sets re_compile data c filters
                  (map fst (cat w)) (filter_objects w)) as Hloop.
    rewrite Hs in Hloop. simpl in Hloop.
    destruct (category_loop re_compile data c filters (map fst (cat w))
                            (filter_objects w)) as [res h].
    simpl in Hloop. subst res.
    destruct (filter (in_all sets) (map fst (cat w))); [congruence|].
    reflexivity.
Qed.

(** X15. How [category] reads its first two arguments. Without
    criteria and with an empty name it raises; with a name, an empty
    criteria dictionary is a read, as no criteria are; with an empty name
    and an empty criteria dictionary no check narrows the index, and every
    entity of a table that has one gets the empty label. *)
Theorem category_dispatch (data : list obs) (filters : option ref)
    (assign : bool) (display : display_style) (w : world) :
  category re_compile data "" None filters assign display w
  = (Raise AttributeError, w)
  /\ (forall name, name <> ""%string ->
        category re_compile data name (Some []) filters assign display w
        = (Ok (show display (labelled name (cat w))), w)
        /\ category re_compile data name None filters assign display w
           = (Ok (show display (labelled name (cat w))), w))
  /\ (cat w <> [] ->
      cat (snd (category re_compile data "" (Some []) filters true display w))
      = map (fun r => (fst r, Some ""%string)) (cat w)).
Proof.
  split; [reflexivity|]. split.
  - intros name Hn. unfold category.
    rewrite (read_branch name Hn). simpl.
    destruct (String.eqb name "") eqn:He; [|now split].
    apply String.eqb_eq in He. contradiction.
  - intros Hne. unfold category. simpl.
    destruct (cat w) as [|r t] eqn:Ht; [congruence|].
    cbn [map is_empty].
    assert (Hcat : assign_category (r :: t) (map fst (r :: t)) ""
                   = map (fun r => (fst r, Some ""%string)) (r :: t)).
    { unfold assign_category. apply map_ext_in. intros x Hx.
      assert (He : existsb (key_eqb (fst x)) (map fst (r :: t)) = true)
        by (apply existsb_key; now apply in_map).
      now rewrite He. }
    destruct display; simpl; exact Hcat.
Qed.

End CategoryMore.

Lemma category_read_back_witness :
  exists l,
    category PyRe.compile two_years "A" None None true DisplayList
             (snd (category PyRe.compile two_years "A"
                            (Some [("V"%string, up_to_10_in_2010)]) None true
                            DisplayOther (start two_years [])))
    = (Ok (ListView l),
       snd (category PyRe.compile two_years "A"
                     (Some [("V"%string, up_to_10_in_2010)]) None true
                     DisplayOther (start two_years [])))
    /\ In m1s1 l.
Proof.
  destruct (category_read_back PyRe.compile two_years "A"
              [("V"%string, up_to_10_in_2010)] None None true DisplayOther
              (start two_years []) [[m1s1]] m1s1) as (l & Hl & Hin & _).
  - discriminate.
  - discriminate.
  - left. reflexivity.
  - reflexivity.
  - intros s [<- | []]. left. reflexivity.
  - exists l. now split.
Defined.

(** ** validate *)

Section ValidateFacts.

Variable re_compile : string -> result (string -> bool).

Lemma failing_in (data : list obs) (o : obs) :
  forall (items : dict check_spec) (rows : list obs),
  failing re_compile data items = Ok rows ->
  (In o rows <->
   exists var chk df,
     In (var, chk) items
     /\ select_rows re_compile data (check_dict var chk) = Ok df
     /\ In o df /\ row_flag chk o = false).
Proof.
  induction items as [|[var chk] rest IH]; intros rows; simpl.
  - intros H. inversion H. split; [intros [] | now intros (? & ? & ? & [] & _)].
  - destruct (select_rows re_compile data (check_dict var chk)) as [df|e]
      eqn:Hsel; simpl; [|discriminate].
    destruct (is_empty df && no_bounds chk); simpl; [discriminate|].
    destruct (failing re_compile data rest) as [more|e] eqn:Hrest; simpl;
      [|discriminate].
    intros H. inversion H; subst rows. clear H.
    rewrite in_app_iff, filter_In, negb_true_iff, (IH more eq_refl). split.
    + intros [[Ho Hf] | (v & c & d & Hin & Hs & Ho & Hf)].
      * exists var, chk, df. repeat split; auto.
      * exists v, c, d. repeat split; auto.
    + intros (v & c & d & [Heq | Hin] & Hs & Ho & Hf).
      * inversion Heq; subst v c. rewrite Hsel in Hs. inversion Hs; subst d.
        now left.
      * right. now exists v, c, d.
Qed.

Lemma validate_loop_fresh (data : list obs) (fr : ref) :
  forall (items : dict check_spec) (df : list obs) (h : heap),
  (fr < length h)%nat -> heap_get h fr = [] ->
  fst (validate_loop re_compile data items fr df h)
  = (more <- failing re_compile data items ;; Ok (df ++ more)%list).
Proof.
  induction items as [|[var chk] rest IH]; intros df h Hr He;
    cbn [validate_loop failing].
  - simpl. now rewrite app_nil_r.
  - rewrite check_fresh by exact He.
    destruct (select_rows re_compile data (check_dict var chk)) as [d|e];
      cbn [bind]; [|reflexivity].
    rewrite check_frame_failing.
    destruct (is_empty d && no_bounds chk); cbn [bind]; [reflexivity|].
    cbv iota. rewrite IH.
    + destruct (failing re_compile data rest) as [more|e]; simpl;
        [|reflexivity].
      now rewrite app_assoc.
    + rewrite length_app. lia.
    + now rewrite heap_get_app.
Qed.

(** X16. [validate], called with filters that are empty (as its
    default is), runs the checks of the criteria in turn and raises when
    one does (a selection that raises, or a criterion without bounds whose
    selection has no row). Else it reports the rows that break a bound of
    one criterion or another: a row is in the report exactly when it is in
    the selection of some criterion and fails its check. With no such row
    it returns nothing and prints that all is satisfied; with [exclude]
    and such a row it raises. It never changes the assignment table. *)
Theorem validate_report (data : list obs) (criteria : dict check_spec)
    (fr : ref) (exclude : bool) (w : world) :
  (fr < length (filter_objects w))%nat ->
  heap_get (filter_objects w) fr = [] ->
  let r := validate re_compile data criteria fr exclude w in
  cat (snd r) = cat w
  /\ match failing re_compile data criteria with
     | Raise e => fst r = Raise e /\ stdout (snd r) = stdout w
     | Ok rows =>
         (forall o, In o rows <->
            exists var chk df,
              In (var, chk) criteria
              /\ select_rows re_compile data (check_dict var chk) = Ok df
              /\ In o df /\ row_flag chk o = false)
         /\ if is_empty rows then
              fst r = Ok None
              /\ stdout (snd r)
                 = (stdout w
                    ++ ["All models and scenarios satisfy the criteria"%string])
                   %list
            else if exclude then
              fst r = Raise (SystemError
                               "excluding model/scenarios not yet supported!")
              /\ stdout (snd r) = stdout w
            else
              fst r = Ok (Some rows)
              /\ stdout (snd r)
                 = (stdout w
                    ++ ["These model/scenarios do not satisfy the criteria:"
                        %string])%list
     end.
Proof.
  intros Hr He r. unfold r, validate.
  pose proof (validate_loop_fresh data fr criteria [] (filter_objects w)
                Hr He) as Hloop.
  pose proof (fun o rows => failing_in data o criteria rows) as Hin.
  destruct (validate_loop re_compile data criteria fr [] (filter_objects w))
    as [res h1].
  simpl in Hloop. subst res.
  destruct (failing re_compile data criteria) as [rows|e]; simpl.
  - split.
    + destruct (is_empty rows); [reflexivity|]. now destruct exclude.
    + split; [intros o; now apply Hin|].
      destruct (is_empty rows); [now split|]. destruct exclude; now split.
  - now split.
Qed.

End ValidateFacts.

Lemma validate_report_witness :
  fst (validate PyRe.compile two_years [("V"%string, up_to_10)] 0%nat false
                (start two_years [[]]))
  = Ok (Some [row "m1" "s1" "r1" "V" 2020 15]).
Proof.
  destruct (validate_report PyRe.compile two_years
              [("V"%string, up_to_10)] 0%nat false (start two_years [[]]))
    as [_ H].
  - simpl. lia.
  - reflexivity.
  - exact (proj1 (proj2 H)).
Defined.

(** ** The table of __init__ *)

(** X1. The assignment table [__init__] makes has one row for each
    (model, scenario) pair of the data, no pair twice, and no row has a
    label. *)
Theorem init_table (data : list obs) :
  NoDup (map fst (init_cat data))
  /\ (forall k, In k (map fst (init_cat data)) <->
                exists o, In o data /\ key_of o = k)
  /\ forall k l, In (k, l) (init_cat data) -> l = None.
Proof.
  destruct (init_cat_keys data) as [Hnd Hin]. split; [exact Hnd|]. split.
  - intros k. rewrite Hin, in_map_iff. split.
    + intros (o & Hk & Ho). now exists o.
    + intros (o & Ho & Hk). now exists o.
  - intros k l H. unfold init_cat in H. apply in_map_iff in H.
    destruct H as (k' & Heq & _). now inversion Heq.
Qed.

(** ** models, scenarios and variables *)

Lemma drop_dups_from_map (A B : Type) (f : A -> B) (eqb : B -> B -> bool)
    (l : list A) :
  forall seen : list A,
  map f (drop_dups_from (fun a b => eqb (f a) (f b)) seen l)
  = drop_dups_from eqb (map f seen) (map f l).
Proof.
  induction l as [|x l IH]; intros seen; simpl; [reflexivity|].
  assert (He : existsb (fun b => eqb (f x) (f b)) seen
               = existsb (eqb (f x)) (map f seen)).
  { clear. induction seen as [|y seen IH]; simpl; congruence. }
  rewrite He. destruct (existsb (eqb (f x)) (map f seen)); simpl.
  - apply IH.
  - f_equal. apply (IH (x :: seen)).
Qed.

Lemma drop_dups_from_ext (A : Type) (e1 e2 : A -> A -> bool) (l : list A) :
  (forall a b, e1 a b = e2 a b) ->
  forall seen, drop_dups_from e1 seen l = drop_dups_from e2 seen l.
Proof.
  intros He. induction l as [|x l IH]; intros seen; simpl; [reflexivity|].
  assert (Hx : existsb (e1 x) seen = existsb (e2 x) seen).
  { clear IH. induction seen as [|y seen IHs]; simpl; [reflexivity|].
    now rewrite He, IHs. }
  rewrite Hx. destruct (existsb (e2 x) seen); now rewrite IH.
Qed.

Section ListingFacts.

Variable re_compile : string -> result (string -> bool).

(** Once [keep] has met a Series it is one. *)
Lemma select_loop_series (data : list obs) :
  forall (fs : dict pyval) (keep : list bool) (m : list bool * bool),
  select_loop re_compile data fs keep false = Ok m -> snd m = false.
Proof.
  induction fs as [|[c v] fs IH]; intros keep m; simpl.
  - intros H. now inversion H.
  - destruct (keep_entry re_compile data c v) as [kc|e]; simpl;
      [|discriminate].
    apply IH.
Qed.

(** The frame of [select] has no column only on a store without rows and
    with no filter. *)
Lemma select_loop_no_column (data : list obs) (fs : dict pyval)
    (m : list bool * bool) :
  select_loop re_compile data fs (map (fun _ => true) data) true = Ok m ->
  snd m && is_empty (fst m) = is_empty data && is_empty fs.
Proof.
  intros Hm.
  pose proof (select_loop_length re_compile data fs _ _ m Hm
                (length_map _ data)) as Hlen.
  destruct data as [|o data].
  - destruct fs as [|[c v] fs]; simpl in Hm.
    + now inversion Hm.
    + destruct (keep_entry re_compile [] c v) as [kc|e]; simpl in Hm;
        [|discriminate].
      destruct (entry_is_array c v); simpl in Hm; [discriminate|].
      now rewrite (select_loop_series [] fs _ m Hm).
  - destruct (fst m); [discriminate|]. simpl. apply andb_false_r.
Qed.

(** One text column of the selection, each value once. *)
Lemma select_one_column (data : list obs) (fs : dict pyval) (c : column)
    (g : obs -> string) :
  (forall o, cell_of o c = SCell (g o)) ->
  (df <- select re_compile data fs (Some [c]) None ;; frame_column df c)
  = if is_empty data && is_empty fs then Raise KeyError
    else (rows <- select_rows re_compile data fs ;;
          Ok (map SCell (drop_duplicates String.eqb (map g rows)))).
Proof.
  intros Hc. unfold select, select_rows, select_mask.
  destruct (select_loop re_compile data fs (map (fun _ => true) data) true)
    as [m|e] eqn:Hm; simpl.
  - rewrite (select_loop_no_column data fs m Hm).
    destruct (is_empty data && is_empty fs); [reflexivity|]. simpl.
    unfold frame_column. simpl.
    assert (Hpos : column_eqb c c = true) by now destruct c.
    rewrite Hpos. simpl. f_equal. rewrite !map_map. simpl.
    unfold drop_duplicates.
    change (@nil string) with (map g []).
    rewrite <- (drop_dups_from_map _ _ g String.eqb
                  (mask_select (fst m) data) []).
    rewrite map_map.
    rewrite (drop_dups_from_ext _ _ (fun a b => String.eqb (g a) (g b))).
    + apply map_ext. intros o. apply Hc.
    + intros a b. rewrite !Hc. simpl. apply andb_true_r.
  - destruct (is_empty data && is_empty fs) eqn:He; [|reflexivity].
    apply andb_true_iff in He. destruct He as [Hd Hf].
    destruct data; [|discriminate]. destruct fs; [|discriminate].
    discriminate.
Qed.

Lemma lists_once_column (data : list obs) (fs : dict pyval) (c : column)
    (g : obs -> string) :
  (forall o, cell_of o c = SCell (g o)) ->
  lists_once re_compile data fs g
    (df <- select re_compile data fs (Some [c]) None ;; frame_column df c).
Proof.
  intros Hc. unfold lists_once. rewrite (select_one_column data fs c g Hc).
  destruct (is_empty data && is_empty fs); [reflexivity|].
  destruct (select_rows re_compile data fs) as [rows|e]; simpl;
    [|reflexivity].
  exists (drop_duplicates String.eqb (map g rows)).
  split; [reflexivity|]. split.
  - apply (drop_duplicates_NoDup _ String.eqb String.eqb_eq).
  - intros x. rewrite (drop_duplicates_in _ String.eqb String.eqb_eq).
    rewrite in_map_iff. split; intros (o & H1 & H2); now exists o.
Qed.

(** X17. [models(filters)] lists the models of the rows that
    [select] keeps, each once, and raises when [select] does;
    [scenarios] and [variables] do the same for their column. On a store
    without rows and with no filter, where the frame of [select] has no
    column, the three raise a KeyError. *)
Theorem listing_distinct (data : list obs) (fs : dict pyval) :
  lists_once re_compile data fs model (models re_compile data fs)
  /\ lists_once re_compile data fs scenario (scenarios re_compile data fs)
  /\ lists_once re_compile data fs variable (variables re_compile data fs).
Proof.
  repeat split; now apply lists_once_column.
Qed.

End ListingFacts.

(** ** highlight_not_max *)

Lemma fold_max (rest : list Q) :
  forall x : Q,
  let m := fold_left (fun m y => if Qle_bool m y then y else m) rest x in
  (m = x \/ In m rest) /\ (x <= m)%Q /\ forall w, In w rest -> (w <= m)%Q.
Proof.
  induction rest as [|y rest IH]; intros x; simpl.
  - split; [now left|]. split; [apply Qle_refl | intros w []].
  - destruct (Qle_bool x y) eqn:Hxy.
    + apply Qle_bool_iff in Hxy.
      destruct (IH y) as (Hm & Hy & Hrest). split; [|split].
      * destruct Hm as [-> | Hm]; right; [now left | now right].
      * now apply (Qle_trans _ y).
      * intros w [<- | Hw]; [exact Hy | now apply Hrest].
    + apply Qle_bool_false in Hxy.
      destruct (IH x) as (Hm & Hx & Hrest). split; [|split].
      * destruct Hm as [-> | Hm]; [now left | right; now right].
      * exact Hx.
      * intros w [<- | Hw]; [|now apply Hrest].
        apply (Qle_trans _ x); [now apply Qlt_le_weak | exact Hx].
Qed.

Lemma series_max_spec (s : list Q) (m : Q) :
  series_max s = Some m -> In m s /\ forall w, In w s -> (w <= m)%Q.
Proof.
  destruct s as [|x rest]; simpl; [discriminate|].
  intros H. inversion H as [Hm]. destruct (fold_max rest x) as (Hin & Hx & Hr).
  split.
  - destruct Hin as [-> | Hin]; [now left | now right].
  - intros w [<- | Hw]; [exact Hx | now apply Hr].
Qed.

(** X18. [highlight_not_max] gives one style per value of the
    series: the empty style for the values that no value of the series
    exceeds, the yellow background for the others; a series that is not
    empty has a value with the empty style. *)
Theorem highlight_not_max_spec (s : list Q) :
  length (highlight_not_max s) = length s
  /\ (forall i v, nth_error s i = Some v ->
        exists style,
          nth_error (highlight_not_max s) i = Some style
          /\ (style = ""%string
              \/ style = "background-color: yellow"%string)
          /\ (style = ""%string <-> forall w, In w s -> (w <= v)%Q))
  /\ (s <> [] -> In ""%string (highlight_not_max s)).
Proof.
  unfold highlight_not_max.
  destruct (series_max s) as [m|] eqn:Hmax.
  - destruct (series_max_spec s m Hmax) as [Hin Hub].
    split; [apply length_map|]. split.
    + intros i v Hi. rewrite nth_error_map, Hi. simpl.
      eexists. split; [reflexivity|].
      destruct (Qeq_bool v m) eqn:He.
      * split; [now left|]. split; [|reflexivity].
        intros _ w Hw. apply Qeq_bool_iff in He. rewrite He. now apply Hub.
      * split; [now right|]. split; [discriminate|].
        intros Hv. exfalso.
        assert (Heq : (v == m)%Q).
        { apply Qle_antisym; [|now apply Hv].
          apply Hub. now apply (nth_error_In s i). }
        apply Qeq_bool_iff in Heq. congruence.
    + intros _. apply in_map_iff. exists m. split; [|exact Hin].
      now rewrite (proj2 (Qeq_bool_iff m m) (Qeq_refl m)).
  - destruct s; [|discriminate]. simpl. split; [reflexivity|]. split.
    + intros [|i] v H; discriminate.
    + congruence.
Qed.

(** ** check over all years, whatever the rows *)

Lemma filter_groupby (rows : list (key * Z)) (p : key * nat -> bool) :
  map fst (filter p (groupby_count rows))
  = filter (fun k => p (k, length (filter (fun r => key_eqb (fst r) k) rows)))
           (sort_keys (drop_duplicates key_eqb (map fst rows))).
Proof.
  unfold groupby_count.
  induction (sort_keys (drop_duplicates key_eqb (map fst rows)))
    as [|k ks IH]; simpl; [reflexivity|].
  destruct (p (k, length (filter (fun r => key_eqb (fst r) k) rows))); simpl;
    now rewrite IH.
Qed.

(** X19. Without a single integer year, [check] in satisfying mode
    returns each entity at most once, and only entities with a satisfying
    row in the selection: those whose number of satisfying rows is the
    number of years of the selection. An empty selection returns no
    entity. *)
Theorem check_all_years_index (chk : check_spec) (df : list obs) :
  match chk_year chk with
  | Some (PInt _) => False
  | _ => True
  end ->
  exists index,
    check_frame chk true df = Ok (AllYears index)
    /\ NoDup index
    /\ (forall k, In k index <->
          In k (map fst (satisfying chk df))
          /\ length (filter (fun r => key_eqb (fst r) k) (satisfying chk df))
             = length (years_queried df))
    /\ (forall k, In k index ->
          exists o, In o df /\ key_of o = k /\ row_flag chk o = true)
    /\ (df = [] -> index = []).
Proof.
  intros Hyr.
  assert (Hframe : check_frame chk true df
                   = Ok (AllYears
                           (map fst
                              (filter (fun g => Nat.eqb (snd g)
                                                  (length (years_queried df)))
                                      (groupby_count (satisfying chk df)))))).
  { unfold check_frame.
    destruct (chk_year chk) as [[]|]; try reflexivity. destruct Hyr. }
  eexists. split; [exact Hframe|]. rewrite filter_groupby.
  assert (Hin : forall k,
            In k (filter
                    (fun k => Nat.eqb
                       (snd (k, length (filter (fun r => key_eqb (fst r) k)
                                               (satisfying chk df))))
                       (length (years_queried df)))
                    (sort_keys
                       (drop_duplicates key_eqb
                          (map fst (satisfying chk df)))))
            <-> In k (map fst (satisfying chk df))
                /\ length (filter (fun r => key_eqb (fst r) k)
                                  (satisfying chk df))
                   = length (years_queried df)).
  { intros k. rewrite filter_In. simpl. rewrite Nat.eqb_eq.
    rewrite sort_keys_in.
    now rewrite (drop_duplicates_in _ key_eqb key_eqb_eq). }
  split; [|split; [exact Hin|split]].
  - apply NoDup_filter, sort_keys_NoDup.
    apply (drop_duplicates_NoDup _ key_eqb key_eqb_eq).
  - intros k Hk. apply Hin in Hk. destruct Hk as [Hk _].
    rewrite satisfying_rows, map_map in Hk. apply in_map_iff in Hk.
    destruct Hk as (o & Hkey & Ho). apply filter_In in Ho.
    exists o. tauto.
  - intros ->. now rewrite satisfying_rows.
Qed.

Lemma check_all_years_index_witness :
  exists index,
    check_frame up_to_10 true three_of_four = Ok (AllYears index)
    /\ NoDup index.
Proof.
  destruct (check_all_years_index up_to_10 three_of_four I)
    as (index & Hf & Hnd & _).
  now exists index.
Defined.

(** ** Further instances *)

Lemma select_rows_narrow_witness :
  exists wider,
    select_rows PyRe.compile two_years [("year"%string, PInt 2010)]
    = Ok wider
    /\ incl [row "m1" "s1" "r1" "V" 2010 5] wider.
Proof.
  destruct (select_rows_narrow PyRe.compile two_years
              [("year"%string, PInt 2010)] [("variable"%string, PStr "V")]
              [row "m1" "s1" "r1" "V" 2010 5] eq_refl)
    as (_ & wider & Hw & Hincl & _).
  now exists wider.
Defined.

Lemma keep_col_match_union_witness :
  keep_col_match PyRe.compile ["V"; "W"; "X"]%string
                 (PList (map EStr ["V"; "W"]%string)) true
  = Ok [true; true; false].
Proof.
  rewrite (keep_col_match_union PyRe.compile ["V"; "W"; "X"]%string true
             ["V"; "W"]%string
             [PyRe.matches (literal_items "V" ++ [PyRe.End_]);
              PyRe.matches (literal_items "W" ++ [PyRe.End_])]).
  - reflexivity.
  - repeat constructor.
Defined.
